(** * ReactiveCascadingDropdown: a shallow embedding and its properties

    The class [ReactiveCascadingDropdown] keeps a dataset, a list of
    dependency declarations, the current selections and a list of change
    listeners.  This file embeds the class as Rocq functions and proves the
    properties of its operations.

    Modelling choices.
    - JavaScript objects used as maps ([Record<string, ...>]) are [gmap string].
      A lookup [o[k]] is [o !! k]: [None] is JavaScript's [undefined].
    - [FieldValue = string | number | null] is the inductive [FieldValue].
      Numbers are integers; [ToString] is that of JavaScript for
      the numbers below 10^21 in magnitude ([plain_decimal]), which print as
      plain decimal digits; strings are sequences of code units below 256.
      On these values [===] and the SameValueZero of [Set] are Leibniz
      equality.
    - [Array.prototype.sort] is stable (ECMAScript 2019): it is the stable
      insertion sort [sort_by].
    - Property names are ordinary: the maps hold the own properties of the
      objects.  Reading a name that [Object.prototype] defines ([toString],
      [constructor], [__proto__], ...) from an object without that own
      property, and writing [__proto__], go through the prototype in
      JavaScript; the properties below that depend on such reads and writes
      assume [ordinary] names.
    - A [ChangeListener] is known by what it does with a notification: it
      returns or it throws; it does not call back into the dropdown and does
      not mutate the payload it receives.  An [Observer] may in addition call
      the handle that [onChange] gave it while it runs.
    - The recursion of [resetDependentFields] follows the dependency graph; it
      takes a [fuel] that bounds its depth, and running out of it is the
      outcome [Diverge]. *)

From Stdlib Require Import DecimalString.
From stdpp Require Import gmap strings list fin_maps relations sorting.

Set Warnings "-clear-no-such-hyp".

(** * The program *)

(** ** Values *)

Inductive FieldValue :=
| FNull
| FStr (s : string)
| FNum (n : Z).

Global Instance FieldValue_eq_dec : EqDecision FieldValue.
Proof. solve_decision. Defined.

(** A JavaScript value read from an object: [None] is [undefined]. *)
Abbreviation jsval := (option FieldValue).

(** type DataItem = Record<string, any>; type FilterMap = Record<string, FieldValue> *)
Abbreviation DataItem := (gmap string FieldValue).
Abbreviation FilterMap := (gmap string FieldValue).

Record DependencyConfig := {
  field : string;
  dependsOn : list string
}.

Global Instance DependencyConfig_eq_dec : EqDecision DependencyConfig.
Proof. solve_decision. Defined.

Record DropdownState := {
  currentSelections : FilterMap;
  availableOptions : gmap string (list jsval);
  filteredData : list DataItem
}.

(** What a call of a listener does: it returns, or it throws an error.
    A [ChangeListener] does nothing else: it does not call [select], [reset]
    or a handle of [onChange] while it runs ([Observer] below adds the call of
    its handle). *)
Inductive completion :=
| Returns
| Throws (error : string).

Definition ChangeListener := string → FieldValue → DropdownState → completion.

Record Dropdown := {
  data : list DataItem;
  dependencies : list DependencyConfig;
  state : FilterMap;
  listeners : list ChangeListener
}.

(** ** Sorting and sets *)

(** The stable sort behind [Array.prototype.sort]: [le a b] is
    "the comparator does not put [b] before [a]". *)
Fixpoint insert_by {A : Type} (le : A → A → bool) (x : A) (l : list A) : list A :=
  match l with
  | [] => [x]
  | y :: l' => if le x y then x :: y :: l' else y :: insert_by le x l'
  end.

Definition sort_by {A : Type} (le : A → A → bool) (l : list A) : list A :=
  foldr (insert_by le) [] l.

(** Code units of a string compared as [<] on strings does. *)
Fixpoint code_units_le (a b : string) : bool :=
  match a, b with
  | EmptyString, _ => true
  | String _ _, EmptyString => false
  | String x a', String y b' =>
      if (Ascii.nat_of_ascii x <? Ascii.nat_of_ascii y)%nat then true
      else if (Ascii.nat_of_ascii y <? Ascii.nat_of_ascii x)%nat then false
      else code_units_le a' b'
  end.

(** [ToString]: a number prints its decimal digits, which is what JavaScript
    prints below 10^21 in magnitude ([plain_decimal]). *)
Definition ToString (v : FieldValue) : string :=
  match v with
  | FNull => "null"
  | FStr s => s
  | FNum n => NilZero.string_of_int (Z.to_int n)
  end.

(** SortCompare of [sort()] without a comparator: [undefined] goes last, the
    other values are compared by their [ToString]. *)
Definition SortCompare_le (x y : jsval) : bool :=
  match x, y with
  | None, None => true
  | None, Some _ => false
  | Some _, None => true
  | Some a, Some b => code_units_le (ToString a) (ToString b)
  end.

(** [new Set(l)] spread into an array: first occurrences, in order. *)
Definition Set_add (s : list jsval) (x : jsval) : list jsval :=
  if decide (x ∈ s) then s else s ++ [x].

Definition Set_from (l : list jsval) : list jsval := foldl Set_add [] l.

(** ** The class: pure parts *)

(** deps.sort((a, b) => a.dependsOn.length - b.dependsOn.length) *)
Definition sortDependencies (deps : list DependencyConfig) : list DependencyConfig :=
  sort_by (λ a b, (length (dependsOn a) <=? length (dependsOn b))%nat) deps.

(** this.dependencies.forEach(dep => { this.state[dep.field] = null; }):
    the write of an own entry, as JavaScript does for every name but
    [__proto__]. *)
Definition initializeSelections (this : Dropdown) : Dropdown :=
  {| data := data this;
     dependencies := dependencies this;
     state := foldl (λ st dep, <[field dep := FNull]> st) (state this) (dependencies this);
     listeners := listeners this |}.

Definition new (data0 : list DataItem) (deps : list DependencyConfig) : Dropdown :=
  initializeSelections
    {| data := data0; dependencies := sortDependencies deps; state := ∅; listeners := [] |}.

Definition find_dependency (this : Dropdown) (f : string) : option DependencyConfig :=
  List.find (λ d, bool_decide (field d = f)) (dependencies this).

(** One step of the parent filter of [getOptions]. *)
Definition applyParent (st : FilterMap) (filtered : list DataItem) (parentField : string)
  : list DataItem :=
  match st !! parentField with
  | None => filtered
  | Some FNull => filtered
  | Some parentValue => filter (λ item, item !! parentField = Some parentValue) filtered
  end.

(** [getOptions]: [state !! p] and [item !! f] read own properties, as
    JavaScript does at [ordinary] names. *)
Definition getOptions (this : Dropdown) (f : string) : list jsval :=
  match find_dependency this f with
  | None => []
  | Some dependency =>
      let filtered := foldl (applyParent (state this)) (data this) (dependsOn dependency) in
      sort_by SortCompare_le
        (filter (λ val, val ≠ Some FNull ∧ val ≠ None)
           (Set_from (map (λ item : DataItem, item !! f) filtered)))
  end.

(** [getAllOptions]: the write [acc[dep.field] = ...] is that of an own
    entry, as JavaScript does for every name but [__proto__]. *)
Definition getAllOptions (this : Dropdown) : gmap string (list jsval) :=
  foldl (λ acc dep, <[field dep := getOptions this (field dep)]> acc) ∅ (dependencies this).

(** The test of one entry of the selections against one record. *)
Definition entry_ok (item : DataItem) (entry : string * FieldValue) : Prop :=
  entry.2 = FNull ∨ item !! entry.1 = Some entry.2.

Global Instance entry_ok_dec item entry : Decision (entry_ok item entry).
Proof. unfold entry_ok. apply _. Defined.

Definition getFilteredData (this : Dropdown) : list DataItem :=
  filter (λ item, Forall (entry_ok item) (map_to_list (state this))) (data this).

Definition getCurrentState (this : Dropdown) : DropdownState :=
  {| currentSelections := state this;
     availableOptions := getAllOptions this;
     filteredData := getFilteredData this |}.

Definition getSelectionSequence (this : Dropdown) : list string :=
  map field (dependencies this).

(** [canSelect]: [state !! parentField] reads the own entry, as JavaScript
    does at [ordinary] names. *)
Definition canSelect (this : Dropdown) (f : string) : bool :=
  match find_dependency this f with
  | None => false
  | Some dependency =>
      forallb (λ parentField,
                 bool_decide (state this !! parentField ≠ Some FNull
                              ∧ state this !! parentField ≠ None))
              (dependsOn dependency)
  end.

(** ** Effects: mutation of [this], the trace, exceptions *)

(** What the outside world sees of a run. *)
Inductive event :=
| Notify (f : string) (value : FieldValue) (view : DropdownState)
    (** [notifyListeners(f, value, view)] is entered *)
| Invoke (i : nat) (f : string) (value : FieldValue) (view : DropdownState)
    (** the [i]-th registered listener is called *)
| ConsoleError (error : string).
    (** [console.error] reports a caught error *)

Record World := {
  self : Dropdown;
  trace : list event
}.

Inductive outcome (A : Type) :=
| Normal (a : A)
| Throw (error : string)
| Diverge.
Arguments Normal {A} a.
Arguments Throw {A} error.
Arguments Diverge {A}.

Definition M (A : Type) : Type := World → outcome A * World.

Definition ret {A} (a : A) : M A := λ w, (Normal a, w).

Definition bind {A B} (m : M A) (k : A → M B) : M B :=
  λ w, match m w with
       | (Normal a, w') => k a w'
       | (Throw e, w') => (Throw e, w')
       | (Diverge, w') => (Diverge, w')
       end.

Notation "'let*' x ':=' m 'in' k" := (bind m (λ x, k))
  (at level 10, x binder, m at level 100, k at level 200).

Definition gets {A} (f : Dropdown → A) : M A := λ w, (Normal (f (self w)), w).

(** [this] with [st] for its selections. *)
Definition with_state (this : Dropdown) (st : FilterMap) : Dropdown :=
  {| data := data this;
     dependencies := dependencies this;
     state := st;
     listeners := listeners this |}.

Definition modify (f : Dropdown → Dropdown) : M unit :=
  λ w, (Normal (), {| self := f (self w); trace := trace w |}).

(** this.state[f] = value: the write of an own entry, as JavaScript does for
    every name but [__proto__]. *)
Definition assign (f : string) (value : FieldValue) : M unit :=
  modify (λ this, with_state this (<[f := value]> (state this))).

Definition emit (ev : event) : M unit :=
  λ w, (Normal (), {| self := self w; trace := trace w ++ [ev] |}).

Definition throw {A} (e : string) : M A := λ w, (Throw e, w).

Definition diverge {A} : M A := λ w, (Diverge, w).

(** try { body } catch (error) { handler(error) } *)
Definition try_catch {A} (body : M A) (handler : string → M A) : M A :=
  λ w, match body w with
       | (Throw e, w') => handler e w'
       | r => r
       end.

(** l.forEach(x => body(x)) *)
Fixpoint forEach {A} (l : list A) (body : A → M unit) : M unit :=
  match l with
  | [] => ret ()
  | x :: l' => let* _ := body x in forEach l' body
  end.

(** l.forEach((x, i) => body(i, x)), counting from [i] *)
Fixpoint forEach_from {A} (i : nat) (l : list A) (body : nat → A → M unit) : M unit :=
  match l with
  | [] => ret ()
  | x :: l' => let* _ := body i x in forEach_from (S i) l' body
  end.

(** ** The class: notifications, the cascade, select and reset *)

(** The call [listener(f, value, view)]. *)
Definition call (i : nat) (listener : ChangeListener) (f : string) (value : FieldValue)
    (view : DropdownState) : M unit :=
  let* _ := emit (Invoke i f value view) in
  match listener f value view with
  | Returns => ret ()
  | Throws e => throw e
  end.

Definition notifyListeners (f : string) (value : FieldValue) (view : DropdownState) : M unit :=
  let* _ := emit (Notify f value view) in
  let* ls := gets listeners in
  forEach_from 0 ls (λ i listener,
    try_catch (call i listener f value view)
              (λ error, emit (ConsoleError error))).

Fixpoint resetDependentFields (fuel : nat) (changedField : string) : M unit :=
  match fuel with
  | O => diverge
  | S fuel' =>
      let* deps := gets dependencies in
      forEach (filter (λ dep, changedField ∈ dependsOn dep) deps) (λ dep,
        let* oldValue := gets (λ this, state this !! field dep) in
        let* _ := assign (field dep) FNull in
        let* _ := resetDependentFields fuel' (field dep) in
        if decide (oldValue = Some FNull) then ret ()
        else
          let* view := gets getCurrentState in
          notifyListeners (field dep) FNull view)
  end.

Definition select (fuel : nat) (f : string) (value : FieldValue) : M DropdownState :=
  let* _ := assign f value in
  let* _ := resetDependentFields fuel f in
  let* updatedState := gets getCurrentState in
  let* _ := notifyListeners f value updatedState in
  ret updatedState.

Definition reset : M DropdownState :=
  let* _ := modify initializeSelections in
  let* updatedState := gets getCurrentState in
  let* _ := notifyListeners "reset" FNull updatedState in
  ret updatedState.

(** this.listeners.push(listener); the handle it returns, which takes the
    listener out again, is left out: no property below is about it. *)
Definition onChange (listener : ChangeListener) (this : Dropdown) : Dropdown :=
  {| data := data this;
     dependencies := dependencies this;
     state := state this;
     listeners := listeners this ++ [listener] |}.

(** ** The fixtures *)

Definition product (id name category subcategory brand : string) : DataItem :=
  <["id" := FStr id]> (<["name" := FStr name]> (<["category" := FStr category]>
    (<["subcategory" := FStr subcategory]> (<["brand" := FStr brand]> ∅)))).

Definition comprehensiveProducts : list DataItem := [
  product "1" "iPhone 14" "Electronics" "Smartphones" "Apple";
  product "2" "iPhone 13" "Electronics" "Smartphones" "Apple";
  product "3" "Galaxy S23" "Electronics" "Smartphones" "Samsung";
  product "4" "Galaxy S22" "Electronics" "Smartphones" "Samsung";
  product "5" "Pixel 7" "Electronics" "Smartphones" "Google";
  product "6" "MacBook Pro" "Electronics" "Laptops" "Apple";
  product "7" "MacBook Air" "Electronics" "Laptops" "Apple";
  product "8" "Dell XPS 13" "Electronics" "Laptops" "Dell";
  product "9" "ThinkPad X1" "Electronics" "Laptops" "Lenovo";
  product "10" "Air Max 90" "Sports" "Footwear" "Nike";
  product "11" "Stan Smith" "Sports" "Footwear" "Adidas";
  product "12" "Chuck Taylor" "Sports" "Footwear" "Converse";
  product "13" "Tennis Racket Pro" "Sports" "Equipment" "Wilson";
  product "14" "Basketball" "Sports" "Equipment" "Spalding";
  product "15" "Basic T-Shirt" "Clothing" "Casual" "H&M";
  product "16" "Denim Jacket" "Clothing" "Casual" "Levi's";
  product "17" "Hoodie" "Clothing" "Casual" "Nike";
  product "18" "Business Suit" "Clothing" "Formal" "Hugo Boss";
  product "19" "Dress Shirt" "Clothing" "Formal" "Ralph Lauren"
].

Definition productDependencies : list DependencyConfig := [
  {| field := "category"; dependsOn := [] |};
  {| field := "subcategory"; dependsOn := ["category"] |};
  {| field := "brand"; dependsOn := ["category"; "subcategory"] |};
  {| field := "name"; dependsOn := ["category"; "subcategory"; "brand"] |}
].

(** The listener of [DropdownTestMatrix.setupLogging]: it formats a log line
    and returns. *)
Definition logging : ChangeListener := λ _ _ _, Returns.

(** new DropdownTestMatrix(): the dropdown with its logging listener. *)
Definition testMatrix : World :=
  {| self := onChange logging (new comprehensiveProducts productDependencies);
     trace := [] |}.

(** The world after running [m], whatever its outcome. *)
Definition after {A} (m : M A) (w : World) : World := (m w).2.

(** * The vocabulary of the properties *)

(** [item] agrees with every set selection among [parents]. *)
Definition narrowed (st : FilterMap) (parents : list string) (item : DataItem) : Prop :=
  ∀ p v, p ∈ parents → st !! p = Some v → v ≠ FNull → item !! p = Some v.




(** The options before [sort()]. *)
Definition distinct_values (this : Dropdown) (f : string) (dependency : DependencyConfig)
  : list jsval :=
  filter (λ val, val ≠ Some FNull ∧ val ≠ None)
    (Set_from (map (λ item : DataItem, item !! f)
                 (foldl (applyParent (state this)) (data this) (dependsOn dependency)))).

(** [item] equals the selection at every entry of [st] that is set. *)
Definition matches (st : FilterMap) (item : DataItem) : Prop :=
  map_Forall (λ f v, v = FNull ∨ item !! f = Some v) st.

Global Instance matches_dec st item : Decision (matches st item).
Proof. unfold matches. apply _. Defined.

(** The same, over the declared fields only. *)
Definition matches_declared (this : Dropdown) (item : DataItem) : Prop :=
  Forall (λ dep, state this !! field dep = None
                 ∨ state this !! field dep = Some FNull
                 ∨ item !! field dep = state this !! field dep)
         (dependencies this).

Global Instance matches_declared_dec this item : Decision (matches_declared this item).
Proof. unfold matches_declared. apply _. Defined.

(** The world after [select("color", "red")] on the fresh fixture: "color" is
    not a declared field. *)
Definition colorSelected : World := after (select 5 "color" (FStr "red")) testMatrix.

(** The world [w] with [st] for the selections and [evs] added to the trace. *)
Definition updated (w : World) (st : FilterMap) (evs : list event) : World :=
  {| self := with_state (self w) st; trace := trace w ++ evs |}.

(** What one notification adds to the trace: every listener is called, in
    the order of registration; an error it throws goes to the console. *)
Fixpoint deliveries (i : nat) (ls : list ChangeListener) (f : string) (value : FieldValue)
    (view : DropdownState) : list event :=
  match ls with
  | [] => []
  | listener :: ls' =>
      Invoke i f value view
      :: match listener f value view with
         | Returns => []
         | Throws e => [ConsoleError e]
         end
      ++ deliveries (S i) ls' f value view
  end.

(** [cascades deps c f]: a declaration of [f] lists [c] in its [dependsOn],
    so that a change of [c] resets [f]. *)
Definition cascades (deps : list DependencyConfig) (c f : string) : Prop :=
  ∃ dep, dep ∈ deps ∧ field dep = f ∧ c ∈ dependsOn dep.

(** [f] transitively depends on [c]. *)
Definition depends_on (deps : list DependencyConfig) (f c : string) : Prop :=
  tc (cascades deps) c f.

(** No field transitively depends on itself. *)
Definition acyclic (deps : list DependencyConfig) : Prop :=
  ∀ f, ¬ depends_on deps f f.

(** The body of the loop of [resetDependentFields], for one declaration. *)
Definition reset_body (fuel : nat) (dep : DependencyConfig) : M unit :=
  let* oldValue := gets (λ this, state this !! field dep) in
  let* _ := assign (field dep) FNull in
  let* _ := resetDependentFields fuel (field dep) in
  if decide (oldValue = Some FNull) then ret ()
  else
    let* view := gets getCurrentState in
    notifyListeners (field dep) FNull view.

(** The events of the notification that follows a reset of [f], if any. *)
Definition reset_events (old : jsval) (f : string) (this : Dropdown) : list event :=
  if decide (old = Some FNull) then []
  else Notify f FNull (getCurrentState this)
       :: deliveries 0 (listeners this) f FNull (getCurrentState this).

(** From [st] to [st'] the entries changed, if at all, to null, and only
    those of fields that transitively depend on [c]. *)
Definition nulled (deps : list DependencyConfig) (c : string) (st st' : FilterMap) : Prop :=
  ∀ f, st' !! f = st !! f ∨ (depends_on deps f c ∧ st' !! f = Some FNull).

(** The names of the declared fields. *)
Definition declared (this : Dropdown) : gset string :=
  list_to_set (map field (dependencies this)).

(** The notifications of a trace: the arguments of each [notifyListeners]. *)
Definition notifications (evs : list event) : list (string * FieldValue * DropdownState) :=
  omap (λ ev, match ev with
              | Notify f value view => Some (f, value, view)
              | _ => None
              end) evs.

Definition note_field (n : string * FieldValue * DropdownState) : string := n.1.1.
Definition note_value (n : string * FieldValue * DropdownState) : FieldValue := n.1.2.
Definition note_view (n : string * FieldValue * DropdownState) : DropdownState := n.2.

(** No field is followed by a field that transitively depends on it. *)
Fixpoint postorder (deps : list DependencyConfig) (fs : list string) : Prop :=
  match fs with
  | [] => True
  | d :: rest => (∀ e, depends_on deps e d → e ∉ rest) ∧ postorder deps rest
  end.

(** What a cascade that was to null the fields [targets] has done, from the
    selections [st] to [st'], with the notifications [ns]. *)
Definition cascaded (deps : list DependencyConfig) (targets : string → Prop) (c : string)
    (st st' : FilterMap) (ns : list (string * FieldValue * DropdownState)) : Prop :=
  nulled deps c st st'
  ∧ (∀ f, targets f → st' !! f = Some FNull)
  ∧ Forall (λ n, note_value n = FNull
                 ∧ depends_on deps (note_field n) c
                 ∧ st !! note_field n ≠ Some FNull
                 ∧ currentSelections (note_view n) !! note_field n = Some FNull) ns
  ∧ (∀ f, targets f → st !! f ≠ Some FNull → f ∈ map note_field ns)
  ∧ postorder deps (map note_field ns).

(** The rank of a field: its place in [order]. *)
Definition place (order : list string) (f : string) : nat :=
  match list_find (λ x, x = f) order with
  | Some (i, _) => i
  | None => length order
  end.

Definition ranked (rank : string → nat) (deps : list DependencyConfig) : bool :=
  forallb (λ dep, forallb (λ c, rank c <? rank (field dep)) (dependsOn dep)) deps.

(** category = "Electronics", then subcategory = "Laptops". *)
Definition laptops : World :=
  after (select 5 "subcategory" (FStr "Laptops"))
        (after (select 5 "category" (FStr "Electronics")) testMatrix).

(** ... then category = "Sports". *)
Definition sports : World := after (select 5 "category" (FStr "Sports")) laptops.

(** The events that [select("category", "Sports")] added to the trace. *)
Definition sports_events : list event := drop (length (trace laptops)) (trace sports).

(** The selection of [f] is unset: absent or null. *)
Definition unset (st : FilterMap) (f : string) : Prop :=
  st !! f = None ∨ st !! f = Some FNull.


(** The two dropdowns differ at most in their listeners. *)
Definition same_engine (this1 this2 : Dropdown) : Prop :=
  data this1 = data this2
  ∧ dependencies this1 = dependencies this2
  ∧ state this1 = state this2.

(** The listener indices called by a stretch of trace, in order. *)
Definition invoked (evs : list event) : list nat :=
  omap (λ ev, match ev with Invoke i _ _ _ => Some i | _ => None end) evs.

(** The errors reported to the console by a stretch of trace, in order. *)
Definition console_errors (evs : list event) : list string :=
  omap (λ ev, match ev with ConsoleError e => Some e | _ => None end) evs.

(** The errors the listeners throw at a notification, in order. *)
Definition thrown (ls : list ChangeListener) (f : string) (value : FieldValue)
    (view : DropdownState) : list string :=
  omap (λ listener : ChangeListener,
          match listener f value view with Throws e => Some e | Returns => None end) ls.

(** The listeners of [w] replaced by listeners that return. *)
Definition silenced (w : World) : World :=
  {| self := {| data := data (self w);
                dependencies := dependencies (self w);
                state := state (self w);
                listeners := map (λ _, logging) (listeners (self w)) |};
     trace := trace w |}.

(** A listener that throws, registered before the logging listener. *)
Definition faulty : ChangeListener := λ _ _ _, Throws "boom".

(** ** The utility wrapper and the handle of [onChange] *)

(** DropdownUtility.create(data, dependencies) *)
Definition create (data0 : list DataItem) (deps : list DependencyConfig) : Dropdown :=
  new data0 deps.

(** DropdownUtility.createProductDropdown(products) *)
Definition createProductDropdown (products : list DataItem) : Dropdown :=
  new products [
    {| field := "category"; dependsOn := [] |};
    {| field := "subcategory"; dependsOn := ["category"] |};
    {| field := "brand"; dependsOn := ["category"; "subcategory"] |};
    {| field := "name"; dependsOn := ["category"; "subcategory"; "brand"] |}
  ].

(** The function that [onChange(listener)] returns:
      const index = this.listeners.indexOf(listener);
      if (index > -1) this.listeners.splice(index, 1);
    [indexOf] compares function objects by reference, which the behaviour of
    a listener does not show: [same x] stands for [x === listener]. *)
Definition unsubscribe (same : ChangeListener → bool) (this : Dropdown) : Dropdown :=
  match list_find (λ x, same x = true) (listeners this) with
  | Some (index, _) =>
      {| data := data this;
         dependencies := dependencies this;
         state := state this;
         listeners := delete index (listeners this) |}
  | None => this
  end.

(** A dropdown whose one field lists itself in [dependsOn]. *)
Definition selfDependent : World :=
  {| self := new [] [ {| field := "a"; dependsOn := ["a"] |} ]; trace := [] |}.

(** [view] is the derived view of the selections it carries. *)
Definition genuine (this : Dropdown) (view : DropdownState) : Prop :=
  view = getCurrentState (with_state this (currentSelections view)).

(** What the reset notifications [ns] of a cascade from [st] to [st'] are:
    one per field at most, each for a field whose entry was not null and now
    is, each with null and a genuine view; and null entries stay null. *)
Definition notes_ok (this : Dropdown) (st st' : FilterMap)
    (ns : list (string * FieldValue * DropdownState)) : Prop :=
  NoDup (map note_field ns)
  ∧ Forall (λ n, note_value n = FNull
                 ∧ st !! note_field n ≠ Some FNull
                 ∧ st' !! note_field n = Some FNull
                 ∧ genuine this (note_view n)) ns
  ∧ (∀ f, st !! f = Some FNull → st' !! f = Some FNull).

(** ** Ordinary names, numbers in plain decimal, observers that call back *)

(** The property names that [Object.prototype] defines. *)
Definition Object_prototype_names : list string := [
  "constructor"; "__defineGetter__"; "__defineSetter__"; "hasOwnProperty";
  "__lookupGetter__"; "__lookupSetter__"; "isPrototypeOf"; "propertyIsEnumerable";
  "toString"; "valueOf"; "__proto__"; "toLocaleString"
].

(** A name that an object does not inherit: on it [o[name]] reads, and
    [o[name] = v] writes, the own property, as the maps do. *)
Definition ordinary (name : string) : Prop := name ∉ Object_prototype_names.

Global Instance ordinary_dec name : Decision (ordinary name).
Proof. unfold ordinary. apply _. Defined.

(** A value whose [ToString] is the one of JavaScript: a number prints as
    plain decimal digits below 10^21 in magnitude. *)
Definition plain_decimal (val : jsval) : Prop :=
  match val with
  | Some (FNum n) => (Z.abs n < 10 ^ 21)%Z
  | _ => True
  end.

Global Instance plain_decimal_dec val : Decision (plain_decimal val).
Proof. destruct val as [[| |n]|]; simpl; apply _. Defined.

(** A registered function that may call the handle of its own registration
    while it runs: [ref] is the function object, [unregisters] tells whether
    the call with these arguments calls the handle. *)
Record Observer := {
  ref : nat;
  behaviour : ChangeListener;
  unregisters : string → FieldValue → DropdownState → bool
}.

(** The handle: indexOf(listener), then splice(index, 1). *)
Definition unregister (r : nat) (obs : list Observer) : list Observer :=
  match list_find (λ o, ref o = r) obs with
  | Some (index, _) => delete index obs
  | None => obs
  end.

(** this.listeners.forEach(listener => { try { listener(f, value, view) }
    catch (error) { console.error(...) } }) over the live array: [forEach]
    visits the indices [k], [k+1], ... below the length it found at the start
    ([n] are left) and skips an index that the array has no more. *)
Fixpoint notifyObservers (n k : nat) (obs : list Observer) (f : string) (value : FieldValue)
    (view : DropdownState) : list event * list Observer :=
  match n with
  | O => ([], obs)
  | S n' =>
      match obs !! k with
      | None => notifyObservers n' (S k) obs f value view
      | Some o =>
          let obs' := if unregisters o f value view then unregister (ref o) obs else obs in
          let evs := Invoke k f value view
                     :: match behaviour o f value view with
                        | Returns => []
                        | Throws e => [ConsoleError e]
                        end in
          let r := notifyObservers n' (S k) obs' f value view in
          (evs ++ r.1, r.2)
      end
  end.

(** An observer that calls its handle and throws, and one that watches. *)
Definition leaver : Observer :=
  {| ref := 0; behaviour := λ _ _ _, Throws "boom"; unregisters := λ _ _ _, true |}.

Definition watcher : Observer :=
  {| ref := 1; behaviour := λ _ _ _, Returns; unregisters := λ _ _ _, false |}.

(** An observer that throws and leaves the registrations alone. *)
Definition thrower : Observer :=
  {| ref := 2; behaviour := λ _ _ _, Throws "boom"; unregisters := λ _ _ _, false |}.


(** * Properties *)

(** ** The stable sort *)

Section sort_by_facts.
Context {A : Type} (le : A → A → bool).

Lemma insert_by_perm x l : insert_by le x l ≡ₚ x :: l.
Proof.
  induction l as [|y l IH]; simpl; [done|].
  destruct (le x y); [done|].
  rewrite IH. apply Permutation_swap.
Qed.

Lemma sort_by_perm l : sort_by le l ≡ₚ l.
Proof.
  induction l as [|x l IH]; simpl; [done|].
  rewrite insert_by_perm. by f_equiv.
Qed.

Hypothesis le_total : ∀ x y, le x y = false → le y x = true.
Hypothesis le_trans : ∀ x y z, le x y = true → le y z = true → le x z = true.

Lemma insert_by_sorted x l :
  StronglySorted (λ a b, le a b = true) l →
  StronglySorted (λ a b, le a b = true) (insert_by le x l).
Proof.
  induction 1 as [|y l Hs IH Hy]; simpl.
  - repeat constructor.
  - destruct (le x y) eqn:Hxy.
    + constructor; [by constructor|].
      constructor; [done|].
      eapply Forall_impl; [exact Hy|]. intros z Hz. by eapply le_trans.
    + constructor; [done|].
      rewrite insert_by_perm. constructor; [by apply le_total | done].
Qed.

Lemma sort_by_sorted l : StronglySorted (λ a b, le a b = true) (sort_by le l).
Proof.
  induction l as [|x l IH]; simpl; [constructor|]. by apply insert_by_sorted.
Qed.

(** Stability: the elements of a class that [le] cannot tell apart from
    below keep their order. *)
Lemma insert_by_filter (P : A → Prop) `{!∀ x, Decision (P x)} x l :
  (∀ y, P x → le x y = false → ¬ P y) →
  filter P (insert_by le x l) = filter P (x :: l).
Proof.
  intros HP. induction l as [|y l IH]; simpl; [done|].
  destruct (le x y) eqn:Hxy; [done|].
  rewrite filter_cons, IH, !filter_cons.
  destruct (decide (P x)) as [Hx|Hx]; [|done].
  destruct (decide (P y)) as [Hy|Hy]; [|done].
  by destruct (HP y Hx Hxy).
Qed.

Lemma sort_by_filter (P : A → Prop) `{!∀ x, Decision (P x)} l :
  (∀ x y, P x → le x y = false → ¬ P y) →
  filter P (sort_by le l) = filter P l.
Proof.
  intros HP. induction l as [|x l IH]; simpl; [done|].
  rewrite insert_by_filter by (intros y; apply HP).
  by rewrite !filter_cons, IH.
Qed.
End sort_by_facts.

Lemma StronglySorted_weaken {A} (R S : A → A → Prop) l :
  (∀ x y, R x y → S x y) → StronglySorted R l → StronglySorted S l.
Proof.
  intros HRS. induction 1 as [|x l Hl IH Hx]; constructor; [done|].
  eapply Forall_impl; [exact Hx|]. intros y. apply HRS.
Qed.

(** C9: [getSelectionSequence()] lists the declared fields by ascending
    size of [dependsOn], and the sort is stable: the declarations of each
    size keep the order they were given in. *)
Theorem C9_selection_sequence_is_stable_sort (data0 : list DataItem)
    (deps : list DependencyConfig) :
  ∃ ds : list DependencyConfig,
    dependencies (new data0 deps) = ds
    ∧ getSelectionSequence (new data0 deps) = map field ds
    ∧ ds ≡ₚ deps
    ∧ StronglySorted (λ a b, length (dependsOn a) ≤ length (dependsOn b)) ds
    ∧ ∀ k, filter (λ d, length (dependsOn d) = k) ds
           = filter (λ d, length (dependsOn d) = k) deps.
Proof.
  exists (sortDependencies deps). unfold sortDependencies.
  split; [done|]. split; [done|]. split; [apply sort_by_perm|]. split.
  - eapply StronglySorted_weaken; [|apply sort_by_sorted].
    + intros a b Hab. simpl in Hab. by apply Nat.leb_le.
    + intros x y Hxy. apply Nat.leb_gt in Hxy. apply Nat.leb_le. lia.
    + intros x y z Hxy Hyz. apply Nat.leb_le in Hxy, Hyz. apply Nat.leb_le. lia.
  - intros k. apply sort_by_filter.
    intros x y Hx Hxy Hy. apply Nat.leb_gt in Hxy. lia.
Qed.





Lemma Set_add_elem_of s x y : y ∈ Set_add s x ↔ y ∈ s ∨ y = x.
Proof.
  unfold Set_add. destruct (decide (x ∈ s)) as [Hx|Hx].
  - split; [by left|]. intros [?| ->]; done.
  - rewrite elem_of_app, list_elem_of_singleton. done.
Qed.


Lemma foldl_Set_add_elem_of l s y : y ∈ foldl Set_add s l ↔ y ∈ s ∨ y ∈ l.
Proof.
  revert s. induction l as [|x l IH]; intros s; simpl.
  - rewrite elem_of_nil. tauto.
  - rewrite IH, Set_add_elem_of, elem_of_cons. tauto.
Qed.


Lemma Set_from_elem_of l y : y ∈ Set_from l ↔ y ∈ l.
Proof. unfold Set_from. rewrite foldl_Set_add_elem_of, elem_of_nil. tauto. Qed.


Lemma applyParent_elem_of st l p item :
  item ∈ applyParent st l p ↔
  item ∈ l ∧ (∀ v, st !! p = Some v → v ≠ FNull → item !! p = Some v).
Proof.
  unfold applyParent. destruct (st !! p) as [v|] eqn:Hp.
  - destruct v as [|s|n].
    + split; [|tauto]. intros H; split; [done|]. by intros v [= <-].
    + rewrite list_elem_of_filter. split.
      * intros [H1 H2]. split; [done|]. by intros v [= <-].
      * intros [H1 H2]. split; [|done]. by apply H2.
    + rewrite list_elem_of_filter. split.
      * intros [H1 H2]. split; [done|]. by intros v [= <-].
      * intros [H1 H2]. split; [|done]. by apply H2.
  - split; [|tauto]. intros H; split; done.
Qed.

Lemma foldl_applyParent_elem_of st parents l item :
  item ∈ foldl (applyParent st) l parents ↔ item ∈ l ∧ narrowed st parents item.
Proof.
  unfold narrowed. revert l. induction parents as [|p parents IH]; intros l; simpl.
  - split; [|tauto]. intros H. split; [done|]. intros p v Hp. by apply elem_of_nil in Hp.
  - rewrite IH, applyParent_elem_of. split.
    + intros [[H1 H2] H3]. split; [done|]. intros q v Hq.
      apply elem_of_cons in Hq as [->|Hq]; [apply H2 | by apply H3].
    + intros [H1 H2]. split; [split; [done|]|].
      * intros v. apply H2. by left.
      * intros q v Hq. apply H2. by right.
Qed.


Lemma getOptions_declared this f dependency :
  find_dependency this f = Some dependency →
  getOptions this f = sort_by SortCompare_le (distinct_values this f dependency).
Proof. intros Hfind. unfold getOptions. by rewrite Hfind. Qed.

Lemma distinct_values_elem_of this f dependency (val : jsval) :
  val ∈ distinct_values this f dependency ↔
  val ≠ None ∧ val ≠ Some FNull
  ∧ ∃ item, item ∈ data this
            ∧ narrowed (state this) (dependsOn dependency) item
            ∧ item !! f = val.
Proof.
  unfold distinct_values.
  rewrite list_elem_of_filter, Set_from_elem_of, list_elem_of_fmap.
  setoid_rewrite foldl_applyParent_elem_of. split.
  - intros [[H1 H2] (item & -> & Hin & Hnar)]. eauto 10.
  - intros (H1 & H2 & item & Hin & Hnar & <-). eauto 10.
Qed.

Lemma getOptions_elem_of this f dependency (val : jsval) :
  find_dependency this f = Some dependency →
  val ∈ getOptions this f ↔
  val ≠ None ∧ val ≠ Some FNull
  ∧ ∃ item, item ∈ data this
            ∧ narrowed (state this) (dependsOn dependency) item
            ∧ item !! f = val.
Proof.
  intros Hfind. rewrite (getOptions_declared _ _ _ Hfind), sort_by_perm.
  apply distinct_values_elem_of.
Qed.




Lemma matches_spec st item :
  matches st item ↔ ∀ f v, st !! f = Some v → v ≠ FNull → item !! f = Some v.
Proof.
  unfold matches, map_Forall. split.
  - intros H f v Hf Hv. destruct (H f v Hf); done.
  - intros H f v Hf. destruct (decide (v = FNull)); [by left | right; by apply H].
Qed.

Lemma entries_ok_matches st item :
  Forall (entry_ok item) (map_to_list st) ↔ matches st item.
Proof.
  rewrite matches_spec, Forall_forall. unfold entry_ok. split.
  - intros H f v Hf Hv. apply elem_of_map_to_list in Hf.
    destruct (H _ Hf) as [?|?]; done.
  - intros H [f v] Hf%elem_of_map_to_list. simpl.
    destruct (decide (v = FNull)) as [?|Hv]; [by left | right; by apply H].
Qed.

Lemma getFilteredData_filter_matches (this : Dropdown) :
  getFilteredData this = filter (matches (state this)) (data this).
Proof.
  unfold getFilteredData. apply list_filter_iff. intros item. apply entries_ok_matches.
Qed.

(** C6, as stated, fails once a name that was never declared has been
    selected: no declared field is set, yet no record is returned. *)
Lemma C6_undeclared_selection_filters :
  getFilteredData (self colorSelected) = []
  ∧ filter (matches_declared (self colorSelected)) (data (self colorSelected))
    = comprehensiveProducts
  ∧ getFilteredData (self colorSelected)
    ≠ filter (matches_declared (self colorSelected)) (data (self colorSelected)).
Proof.
  assert (H1 : getFilteredData (self colorSelected) = []) by (vm_compute; reflexivity).
  assert (H2 : filter (matches_declared (self colorSelected)) (data (self colorSelected))
               = comprehensiveProducts) by (vm_compute; reflexivity).
  split; [done|]. split; [done|]. rewrite H1, H2. discriminate.
Qed.

(** C6, amended: [getFilteredData()] is the dataset, in its order, filtered
    by "the record equals the selection at every entry of the Selection State
    that is set" (the entries of the declared fields and of any other name
    that was selected); every record left out differs from a set entry. *)
Theorem C6_getFilteredData_matches_set_entries (this : Dropdown) :
  getFilteredData this = filter (matches (state this)) (data this)
  ∧ sublist (getFilteredData this) (data this)
  ∧ (∀ item, item ∈ getFilteredData this ↔
       item ∈ data this
       ∧ ∀ f v, state this !! f = Some v → v ≠ FNull → item !! f = Some v)
  ∧ (∀ item, item ∈ data this → item ∉ getFilteredData this →
       ∃ f v, state this !! f = Some v ∧ v ≠ FNull ∧ item !! f ≠ Some v).
Proof.
  pose proof (getFilteredData_filter_matches this) as Heq.
  split; [done|]. split; [|split].
  - rewrite Heq. apply sublist_filter.
  - intros item. rewrite Heq, list_elem_of_filter, matches_spec. tauto.
  - intros item Hin Hnot.
    assert (Hno : ¬ Forall (entry_ok item) (map_to_list (state this))).
    { intros Hall. apply Hnot. unfold getFilteredData.
      apply list_elem_of_filter. done. }
    apply not_Forall_Exists in Hno; [|apply _].
    apply Exists_exists in Hno as ([f v] & Hfv & Hbad).
    apply elem_of_map_to_list in Hfv. exists f, v. split; [done|].
    unfold entry_ok in Hbad. simpl in Hbad. split; intros ?; apply Hbad; auto.
Qed.

(** While the Selection State holds entries of declared fields only, the
    set entries are the set selections of the declared fields. *)
Lemma getFilteredData_declared (this : Dropdown) :
  (∀ f, is_Some (state this !! f) → f ∈ map field (dependencies this)) →
  getFilteredData this = filter (matches_declared this) (data this).
Proof.
  intros Hdom. rewrite getFilteredData_filter_matches.
  apply list_filter_iff. intros item. rewrite matches_spec. unfold matches_declared.
  rewrite Forall_forall. split.
  - intros H dep Hdep. destruct (state this !! field dep) as [v|] eqn:Hv; [|by left].
    right. destruct (decide (v = FNull)) as [->|Hne]; [by left|right]. by apply H.
  - intros H f v Hf Hv.
    assert (Hdecl : f ∈ map field (dependencies this)) by (apply Hdom; by eexists).
    apply list_elem_of_fmap in Hdecl as (dep & -> & Hdep).
    destruct (H dep Hdep) as [?|[?|?]]; congruence.
Qed.

Lemma updated_id w : updated w (state (self w)) [] = w.
Proof. destruct w as [[d ds st ls] tr]. unfold updated, with_state. simpl. by rewrite app_nil_r. Qed.

Lemma updated_updated w st1 evs1 st2 evs2 :
  updated (updated w st1 evs1) st2 evs2 = updated w st2 (evs1 ++ evs2).
Proof. unfold updated, with_state. simpl. by rewrite app_assoc. Qed.

Lemma forEach_listeners_run ls i f value view w :
  forEach_from i ls (λ i listener,
    try_catch (call i listener f value view) (λ error, emit (ConsoleError error))) w
  = (Normal (), updated w (state (self w)) (deliveries i ls f value view)).
Proof.
  revert i w. induction ls as [|l ls IH]; intros i w; simpl.
  - unfold ret. by rewrite updated_id.
  - unfold bind at 1. unfold try_catch, call, bind, emit. simpl.
    destruct (l f value view) eqn:Hl; simpl; rewrite IH; f_equal;
      destruct w as [[d ds st lst] tr]; unfold updated, with_state; simpl;
      f_equal; rewrite <- ?app_assoc; simpl; by rewrite ?Hl.
Qed.

Lemma notifyListeners_run f value view w :
  notifyListeners f value view w
  = (Normal (), updated w (state (self w))
                  (Notify f value view :: deliveries 0 (listeners (self w)) f value view)).
Proof.
  unfold notifyListeners, bind, emit, gets. simpl. rewrite forEach_listeners_run.
  f_equal. destruct w as [[d ds st lst] tr]. unfold updated, with_state. simpl.
  f_equal. by rewrite <- app_assoc.
Qed.

Lemma forEach_cons {A} (x : A) l body w :
  forEach (x :: l) body w
  = match body x w with
    | (Normal _, w') => forEach l body w'
    | (Throw e, w') => (Throw e, w')
    | (Diverge, w') => (Diverge, w')
    end.
Proof. done. Qed.

Lemma resetDependentFields_S fuel c w :
  resetDependentFields (S fuel) c w
  = forEach (filter (λ dep, c ∈ dependsOn dep) (dependencies (self w))) (reset_body fuel) w.
Proof. done. Qed.

Lemma reset_body_run fuel dep w :
  reset_body fuel dep w
  = match resetDependentFields fuel (field dep)
            (updated w (<[field dep := FNull]> (state (self w))) []) with
    | (Normal _, w2) =>
        (Normal (), updated w2 (state (self w2))
                      (reset_events (state (self w) !! field dep) (field dep) (self w2)))
    | (Throw e, w2) => (Throw e, w2)
    | (Diverge, w2) => (Diverge, w2)
    end.
Proof.
  unfold reset_body, bind, gets, assign, modify. simpl.
  replace {| self := _; trace := trace w |}
    with (updated w (<[field dep := FNull]> (state (self w))) [])
    by (unfold updated; by rewrite app_nil_r).
  destruct (resetDependentFields _ _ _) as [[[]|e|] w2]; try done.
  unfold reset_events. destruct (decide _).
  - unfold ret. by rewrite updated_id.
  - by rewrite notifyListeners_run.
Qed.

Lemma nulled_refl deps c st : nulled deps c st st.
Proof. intros f. by left. Qed.

Lemma nulled_trans deps c st1 st2 st3 :
  nulled deps c st1 st2 → nulled deps c st2 st3 → nulled deps c st1 st3.
Proof.
  intros H12 H23 f. destruct (H23 f) as [->|?]; [apply H12 | by right].
Qed.

Lemma nulled_step deps c d st1 st2 :
  cascades deps c d → nulled deps d st1 st2 → nulled deps c st1 st2.
Proof.
  intros Hcd H f. destruct (H f) as [?|[Hdf ?]]; [by left|right].
  split; [|done]. by eapply tc_l.
Qed.

Lemma nulled_insert deps c d st :
  cascades deps c d → nulled deps c st (<[d := FNull]> st).
Proof.
  intros Hcd f. destruct (decide (d = f)) as [->|Hne].
  - right. split; [by apply tc_once | by rewrite lookup_insert_eq].
  - left. by rewrite lookup_insert_ne.
Qed.

Lemma nulled_keeps_null deps c st st' f :
  nulled deps c st st' → st !! f = Some FNull → st' !! f = Some FNull.
Proof. intros H Hf. destruct (H f) as [->|[_ ?]]; done. Qed.

(** Whatever the fuel and the declarations, the cascade ends normally or
    runs out of fuel, keeps the dataset, the declarations and the listeners,
    only adds to the trace, and only nulls entries of dependent fields. *)
Lemma resetDependentFields_safe fuel c w :
  ∃ o st' evs,
    resetDependentFields fuel c w = (o, updated w st' evs)
    ∧ (o = Normal () ∨ o = Diverge)
    ∧ nulled (dependencies (self w)) c (state (self w)) st'.
Proof.
  revert c w. induction fuel as [|fuel IH]; intros c w.
  { exists Diverge, (state (self w)), []. rewrite updated_id.
    split; [done|]. split; [by right | apply nulled_refl]. }
  rewrite resetDependentFields_S.
  assert (Hl : ∀ dep, dep ∈ filter (λ dep, c ∈ dependsOn dep) (dependencies (self w)) →
                      cascades (dependencies (self w)) c (field dep)).
  { intros dep [Hc Hin]%list_elem_of_filter. by exists dep. }
  revert Hl. generalize (filter (λ dep, c ∈ dependsOn dep) (dependencies (self w))).
  intros l. remember (dependencies (self w)) as deps eqn:Hdeps. revert w Hdeps.
  induction l as [|dep l IHl]; intros w Hdeps Hl.
  { exists (Normal ()), (state (self w)), []. simpl. unfold ret. rewrite updated_id.
    split; [done|]. split; [by left | apply nulled_refl]. }
  rewrite forEach_cons, reset_body_run.
  assert (Hdep : cascades deps c (field dep)) by (apply Hl; by left).
  destruct (IH (field dep) (updated w (<[field dep:=FNull]> (state (self w))) []))
    as (o & st1 & evs1 & -> & Ho & Hn).
  simpl in Hn. rewrite <- Hdeps in Hn.
  assert (Hn1 : nulled deps c (state (self w)) st1).
  { eapply nulled_trans; [by apply nulled_insert|]. by eapply nulled_step. }
  destruct Ho as [->| ->].
  - rewrite !updated_updated.
    match goal with |- context [forEach l _ ?w'] =>
      destruct (IHl w') as (o2 & st2 & evs2 & -> & Ho2 & Hn2); [done| |] end.
    { intros d Hd. apply Hl. by right. }
    rewrite updated_updated. eexists _, _, _. split; [done|]. split; [done|].
    simpl in Hn2. by eapply nulled_trans.
  - rewrite updated_updated. eexists _, _, _. split; [reflexivity|]. split; [by right|done].
Qed.

Lemma select_run fuel f value w :
  select fuel f value w
  = match resetDependentFields fuel f (updated w (<[f := value]> (state (self w))) []) with
    | (Normal _, w2) =>
        (Normal (getCurrentState (self w2)),
         updated w2 (state (self w2))
           (Notify f value (getCurrentState (self w2))
            :: deliveries 0 (listeners (self w2)) f value (getCurrentState (self w2))))
    | (Throw e, w2) => (Throw e, w2)
    | (Diverge, w2) => (Diverge, w2)
    end.
Proof.
  unfold select, bind, gets, assign, modify. simpl.
  replace {| self := _; trace := trace w |}
    with (updated w (<[f := value]> (state (self w))) [])
    by (unfold updated; by rewrite app_nil_r).
  destruct (resetDependentFields _ _ _) as [[[]|e|] w2]; try done.
  by rewrite notifyListeners_run.
Qed.

Lemma reset_run w :
  reset w
  = let this := initializeSelections (self w) in
    (Normal (getCurrentState this),
     updated w (state this)
       (Notify "reset" FNull (getCurrentState this)
        :: deliveries 0 (listeners this) "reset" FNull (getCurrentState this))).
Proof.
  unfold reset, bind, gets, modify. simpl. rewrite notifyListeners_run. done.
Qed.

Lemma depends_on_declared deps f c : depends_on deps f c → f ∈ map field deps.
Proof.
  unfold depends_on. induction 1 as [c f (dep & Hin & <- & _)|]; [|done].
  apply list_elem_of_fmap. by exists dep.
Qed.

Lemma nulled_dom (this : Dropdown) c st st' :
  declared this ⊆ dom st → nulled (dependencies this) c st st' → dom st' = dom st.
Proof.
  intros Hdecl Hn. apply set_eq. intros f. rewrite !elem_of_dom.
  destruct (Hn f) as [->|[Hdep Hf]]; [done|].
  rewrite Hf. split; [|by eexists]. intros _. apply elem_of_dom, Hdecl.
  unfold declared. apply elem_of_list_to_set. by eapply depends_on_declared.
Qed.

Lemma initializeSelections_dom (deps : list DependencyConfig) (st : FilterMap) :
  dom (foldl (λ st dep, <[field dep := FNull]> st) st deps)
  = dom st ∪ list_to_set (map field deps).
Proof.
  revert st. induction deps as [|dep deps IH]; intros st; simpl.
  - set_solver.
  - rewrite IH, dom_insert_L. set_solver.
Qed.

(** C3, as stated, fails: selecting a name that was never declared adds an
    entry to the Selection State. *)
Lemma C3_undeclared_select_adds_entry :
  (∃ view, (select 5 "color" (FStr "red") testMatrix).1 = Normal view)
  ∧ ("color" ∉ declared (self testMatrix))
  ∧ ("color" ∉ dom (state (self testMatrix)))
  ∧ ("color" ∈ dom (state (self (after (select 5 "color" (FStr "red")) testMatrix))))
  ∧ dom (state (self (after (select 5 "color" (FStr "red")) testMatrix)))
    ≠ dom (state (self testMatrix)).
Proof.
  assert (H1 : "color" ∉ dom (state (self testMatrix))).
  { apply not_elem_of_dom. vm_compute. reflexivity. }
  assert (H2 : "color" ∈ dom (state (self (after (select 5 "color" (FStr "red")) testMatrix)))).
  { apply elem_of_dom. exists (FStr "red"). vm_compute. reflexivity. }
  split; [eexists; vm_compute; reflexivity|].
  split; [|split; [done|split; [done|]]].
  - unfold declared. rewrite elem_of_list_to_set. vm_compute.
    intros H. repeat (apply elem_of_cons in H as [H|H]; [discriminate|]).
    by apply elem_of_nil in H.
  - intros Heq. rewrite Heq in H2. done.
Qed.

(** C3, amended: for names other than [__proto__], whose assignment sets the
    prototype and no entry: construction gives the Selection State one entry
    per declared field.  From then on no entry is ever removed, [reset()] adds
    none, and [select(f, v)] adds none but the entry of [f] itself, which is
    new exactly when [f] was neither declared nor selected before. *)
Theorem C3_entries_of_selection_state (w : World) (fuel : nat) (f : string)
    (value : FieldValue) :
  declared (self w) ⊆ dom (state (self w)) →
  "__proto__" ∉ declared (self w) →
  f ≠ "__proto__" →
  (∀ data0 deps, "__proto__" ∉ map field deps →
                 dom (state (new data0 deps)) = declared (new data0 deps))
  ∧ dom (state (self (after (select fuel f value) w))) = dom (state (self w)) ∪ {[f]}
  ∧ dom (state (self (after reset w))) = dom (state (self w))
  ∧ (f ∈ declared (self w) →
     dom (state (self (after (select fuel f value) w))) = dom (state (self w)))
  ∧ declared (self (after (select fuel f value) w)) = declared (self w)
  ∧ declared (self (after reset w)) = declared (self w).
Proof.
  intros Hdecl _ _.
  assert (Hsel : dom (state (self (after (select fuel f value) w)))
                 = dom (state (self w)) ∪ {[f]}
                 ∧ declared (self (after (select fuel f value) w)) = declared (self w)).
  { unfold after. rewrite select_run.
    destruct (resetDependentFields_safe fuel f
                (updated w (<[f := value]> (state (self w))) []))
      as (o & st' & evs & -> & Ho & Hn).
    simpl in Hn.
    assert (Hdom : dom st' = dom (state (self w)) ∪ {[f]}).
    { rewrite (nulled_dom (self w) f (<[f := value]> (state (self w))) st'); [| |done].
      - rewrite dom_insert_L. set_solver.
      - rewrite dom_insert_L. set_solver. }
    destruct Ho as [->| ->]; simpl; done. }
  destruct Hsel as [Hsel1 Hsel2].
  split; [|split; [done|split; [|split; [|split; [done|]]]]].
  - intros data0 deps _. unfold new, declared. simpl.
    rewrite initializeSelections_dom, dom_empty_L. set_solver.
  - unfold after. rewrite reset_run. simpl.
    rewrite initializeSelections_dom. unfold declared in Hdecl. set_solver.
  - intros Hf. rewrite Hsel1. set_solver.
  - unfold after. rewrite reset_run. done.
Qed.

Lemma C3_entries_witness :
  declared (self testMatrix) ⊆ dom (state (self testMatrix))
  ∧ ("__proto__" ∉ declared (self testMatrix))
  ∧ "category" ≠ "__proto__"
  ∧ dom (state (self (after (select 5 "category" (FStr "Sports")) testMatrix)))
    = dom (state (self testMatrix)) ∪ {["category"]}.
Proof.
  assert (H : declared (self testMatrix) ⊆ dom (state (self testMatrix))).
  { apply (bool_decide_unpack _). vm_compute. reflexivity. }
  assert (H1 : "__proto__" ∉ declared (self testMatrix)).
  { apply (bool_decide_unpack _). vm_compute. reflexivity. }
  assert (H2 : "category" ≠ "__proto__") by discriminate.
  split; [exact H|]. split; [exact H1|]. split; [exact H2|].
  exact (proj1 (proj2 (C3_entries_of_selection_state testMatrix 5 "category"
                         (FStr "Sports") H H1 H2))).
Defined.

Lemma notifications_app evs1 evs2 :
  notifications (evs1 ++ evs2) = notifications evs1 ++ notifications evs2.
Proof. apply omap_app. Qed.

Lemma notifications_deliveries i ls f value view :
  notifications (deliveries i ls f value view) = [].
Proof.
  revert i. induction ls as [|l ls IH]; intros i; simpl; [done|].
  rewrite notifications_app, IH. by destruct (l f value view).
Qed.

Lemma notifications_reset_events old f this :
  notifications (reset_events old f this)
  = if decide (old = Some FNull) then [] else [(f, FNull, getCurrentState this)].
Proof.
  unfold reset_events. destruct (decide _); [done|].
  simpl. unfold notifications in *. by rewrite notifications_deliveries.
Qed.

Section acyclic.
Context (deps : list DependencyConfig).
Hypothesis Hacyclic : acyclic deps.

Lemma postorder_app fs1 fs2 :
  postorder deps (fs1 ++ fs2) ↔
  postorder deps fs1 ∧ postorder deps fs2
  ∧ ∀ d e, d ∈ fs1 → depends_on deps e d → e ∉ fs2.
Proof.
  induction fs1 as [|d fs1 IH]; simpl.
  - split; [|tauto]. intros H. split; [done|]. split; [done|].
    intros d e Hd. by apply elem_of_nil in Hd.
  - rewrite IH. split.
    + intros (H1 & H2 & H3 & H4). split; [split; [|done]|split; [done|]].
      * intros e He Hin. apply (H1 e He). apply elem_of_app. by left.
      * intros d' e [->|Hd']%elem_of_cons He Hin.
        -- apply (H1 e He). apply elem_of_app. by right.
        -- by apply (H4 d' e).
    + intros ((H1 & H2) & H3 & H4). split; [|split; [done|split; [done|]]].
      * intros e He [Hin|Hin]%elem_of_app; [by apply (H1 e)|].
        apply (H4 d e); [by left|done|done].
      * intros d' e Hd'. apply H4. by right.
Qed.

Lemma cascaded_nil c st : cascaded deps (λ _, False) c st st [].
Proof.
  split; [apply nulled_refl|]. split; [done|]. split; [constructor|].
  split; [done|]. done.
Qed.

(** One more declaration [dep] in front of the loop. *)
Lemma cascaded_cons (targets : string → Prop) c dep st st2 st3 view ns1 ns3 :
  cascades deps c (field dep) →
  cascaded deps (λ f, depends_on deps f (field dep)) (field dep)
           (<[field dep := FNull]> st) st2 ns1 →
  currentSelections view = st2 →
  cascaded deps targets c st2 st3 ns3 →
  cascaded deps (λ f, (f = field dep ∨ depends_on deps f (field dep)) ∨ targets f) c st st3
           (ns1 ++ (if decide (st !! field dep = Some FNull) then []
                    else [(field dep, FNull, view)]) ++ ns3).
Proof.
  intros Hdep (Hn1 & Hnull1 & Hns1 & Hall1 & Hpo1) Hview (Hn3 & Hnull3 & Hns3 & Hall3 & Hpo3).
  set (d := field dep) in *.
  assert (Hn02 : nulled deps c st st2).
  { eapply nulled_trans; [by apply nulled_insert|]. by eapply nulled_step. }
  assert (Hd2 : st2 !! d = Some FNull).
  { eapply nulled_keeps_null; [exact Hn1|]. by rewrite lookup_insert_eq. }
  assert (Hbody : ∀ f, f = d ∨ depends_on deps f d → st2 !! f = Some FNull).
  { intros f [->|Hf]; [done|by apply Hnull1]. }
  assert (Hdown : ∀ f, depends_on deps f d → depends_on deps f c).
  { intros f Hf. by eapply tc_l. }
  set (mid := if decide (st !! d = Some FNull) then [] else [(d, FNull, view)]).
  assert (Hmid : Forall (λ n, note_field n = d ∧ note_value n = FNull
                              ∧ st !! d ≠ Some FNull ∧ note_view n = view) mid).
  { unfold mid. destruct (decide _); repeat constructor; done. }
  split; [by eapply nulled_trans|]. split; [|split; [|split]].
  - intros f [Hf|Hf]; [|by apply Hnull3].
    eapply nulled_keeps_null; [exact Hn3|]. by apply Hbody.
  - rewrite !Forall_app. split; [|split].
    + eapply Forall_impl; [exact Hns1|]. intros n (Hv & Hdesc & Hset & Hsel).
      split; [done|]. split; [by apply Hdown|]. split; [|done].
      intros Hst. apply Hset. destruct (decide (d = note_field n)) as [<-|Hne].
      * by rewrite lookup_insert_eq.
      * by rewrite lookup_insert_ne.
    + eapply Forall_impl; [exact Hmid|]. intros n (Hf & Hv & Hset & Hvw).
      rewrite Hf, Hvw, Hview. split; [done|]. split; [by apply tc_once|]. done.
    + eapply Forall_impl; [exact Hns3|]. intros n (Hv & Hdesc & Hset & Hsel).
      split; [done|]. split; [done|]. split; [|done].
      intros Hst. apply Hset. by eapply nulled_keeps_null.
  - intros f Hf Hset. rewrite !map_app, !elem_of_app.
    assert (Hin_body : f = d ∨ depends_on deps f d →
                       f ∈ map note_field ns1 ∨ f ∈ map note_field mid).
    { intros [->|Hfd].
      - right. unfold mid. destruct (decide _); [done|]. simpl. by left.
      - left. apply Hall1; [done|].
        rewrite lookup_insert_ne; [done|]. intros <-. by apply (Hacyclic d). }
    destruct (decide (st2 !! f = Some FNull)) as [Hf2|Hf2].
    + assert (Hch : f = d ∨ depends_on deps f d).
      { destruct (Hn1 f) as [Heq|[Hfd _]]; [|by right].
        destruct (decide (d = f)) as [->|Hne]; [by left|].
        rewrite lookup_insert_ne in Heq by done. congruence. }
      destruct (Hin_body Hch); tauto.
    + destruct Hf as [Hf|Hf].
      * destruct (Hin_body Hf); tauto.
      * right. right. by apply Hall3.
  - rewrite !map_app, !postorder_app.
    assert (Hmidf : ∀ x, x ∈ map note_field mid → x = d).
    { intros x (n & -> & Hn)%list_elem_of_fmap.
      rewrite Forall_forall in Hmid. by apply Hmid. }
    assert (Hns1f : ∀ x, x ∈ map note_field ns1 → depends_on deps x d).
    { intros x (n & -> & Hn)%list_elem_of_fmap.
      rewrite Forall_forall in Hns1. by apply Hns1. }
    assert (Hns3f : ∀ x, x ∈ map note_field ns3 → st2 !! x ≠ Some FNull).
    { intros x (n & -> & Hn)%list_elem_of_fmap.
      rewrite Forall_forall in Hns3. by apply Hns3. }
    split; [done|]. split; [split; [|split; [done|]]|].
    + unfold mid. destruct (decide _); simpl; [done|]. split; [|done].
      intros e _ He. by apply elem_of_nil in He.
    + intros x e Hx%Hmidf He Hin. subst x. apply (Hns3f e Hin).
      apply Hbody. by right.
    + intros x e Hx He [Hin|Hin]%elem_of_app.
      * apply Hmidf in Hin. subst e. apply (Hacyclic d).
        eapply tc_transitive; [apply (Hns1f x Hx) | exact He].
      * apply (Hns3f e Hin). apply Hbody. right.
        eapply tc_transitive; [apply (Hns1f x Hx) | exact He].
Qed.
End acyclic.

Lemma cascaded_targets deps (P Q : string → Prop) c st st' ns :
  (∀ f, Q f → P f) → cascaded deps P c st st' ns → cascaded deps Q c st st' ns.
Proof.
  intros HQP (H1 & H2 & H3 & H4 & H5).
  split; [done|]. split; [|split; [done|split; [|done]]].
  - intros f Hf. by apply H2, HQP.
  - intros f Hf. by apply H4, HQP.
Qed.

(** Over an acyclic relation, fuel beyond the number of declarations is
    enough: the cascade returns, and has nulled every field that transitively
    depends on [c]. [path] holds the fields whose reset is under way. *)
Lemma resetDependentFields_acyclic deps fuel c path w :
  acyclic deps →
  dependencies (self w) = deps →
  NoDup path →
  (∀ p, p ∈ path → p ∈ map field deps) →
  (∀ p, p ∈ path → rtc (cascades deps) p c) →
  length deps < fuel + length path →
  ∃ st' evs,
    resetDependentFields fuel c w = (Normal (), updated w st' evs)
    ∧ cascaded deps (λ f, depends_on deps f c) c (state (self w)) st' (notifications evs).
Proof.
  intros Hacyclic. revert c path w.
  induction fuel as [|fuel IH]; intros c path w Hdeps Hnodup Hdecl Hreach Hfuel.
  { exfalso. assert (length path ≤ length (map field deps)).
    { apply submseteq_length, NoDup_submseteq; done. }
    rewrite length_map in *. simpl in Hfuel. lia. }
  rewrite resetDependentFields_S, Hdeps.
  set (l := filter (λ dep, c ∈ dependsOn dep) deps).
  assert (Hl : ∀ dep, dep ∈ l → dep ∈ deps ∧ c ∈ dependsOn dep).
  { intros dep [? ?]%list_elem_of_filter. done. }
  assert (Hinner : ∃ st' evs,
    forEach l (reset_body fuel) w = (Normal (), updated w st' evs)
    ∧ cascaded deps (λ f, ∃ dep, dep ∈ l ∧ (f = field dep ∨ depends_on deps f (field dep)))
               c (state (self w)) st' (notifications evs)).
  { clearbody l. revert w Hdeps. induction l as [|dep l IHl]; intros w Hdeps.
    { exists (state (self w)), []. simpl. unfold ret. rewrite updated_id.
      split; [done|]. eapply cascaded_targets; [|apply cascaded_nil].
      intros f (dep & Hin & _). by apply elem_of_nil in Hin. }
    rewrite forEach_cons, reset_body_run.
    destruct (Hl dep) as [Hin Hc]; [by left|].
    assert (Hdep : cascades deps c (field dep)) by (by exists dep).
    assert (Hfresh : field dep ∉ path).
    { intros Hp. apply (Hacyclic (field dep)). unfold depends_on.
      eapply tc_rtc_l; [by apply Hreach|]. by apply tc_once. }
    destruct (IH (field dep) (field dep :: path)
                 (updated w (<[field dep:=FNull]> (state (self w))) []))
      as (st2 & evs2 & -> & Hc2).
    { done. }
    { by constructor. }
    { intros p [->|Hp]%elem_of_cons; [|by apply Hdecl].
      apply list_elem_of_fmap. by exists dep. }
    { intros p [->|Hp]%elem_of_cons; [done|].
      eapply rtc_r; [by apply Hreach|done]. }
    { simpl. lia. }
    rewrite !updated_updated.
    match goal with |- context [forEach l _ ?w'] =>
      destruct (IHl ltac:(intros d Hd; apply Hl; by right) w')
        as (st3 & evs3 & -> & Hc3); [done|] end.
    rewrite updated_updated. eexists _, _. split; [reflexivity|].
    simpl in Hc2, Hc3. rewrite !notifications_app, notifications_reset_events. simpl.
    rewrite <- app_assoc.
    eapply cascaded_targets;
      [|exact (cascaded_cons deps Hacyclic _ c dep (state (self w)) st2 st3
                 (getCurrentState (with_state (self w) st2)) _ _ Hdep Hc2 eq_refl Hc3)].
    intros f (d & [->|Hd]%elem_of_cons & Hf); [by left|]. right. by exists d. }
  destruct Hinner as (st' & evs & Hrun & Hcasc).
  exists st', evs. split; [done|].
  eapply cascaded_targets; [|exact Hcasc].
  intros f Hf. unfold depends_on in Hf. inversion Hf as [? ? (dep & Hin & Hfd & Hc)|? y ? (dep & Hin & Hfd & Hc) Hrest]; subst.
  - exists dep. split; [|by left]. apply list_elem_of_filter. done.
  - exists dep. split; [|by right]. apply list_elem_of_filter. done.
Qed.

(** [select] over an acyclic relation, with fuel beyond the number of
    declarations: it returns the view of the final selections, after the
    notifications of the cascade and its own. *)
Lemma select_acyclic fuel f value w :
  acyclic (dependencies (self w)) →
  length (dependencies (self w)) < fuel →
  ∃ st' evs,
    let view := getCurrentState (with_state (self w) st') in
    select fuel f value w
    = (Normal view,
       updated w st' (evs ++ Notify f value view
                          :: deliveries 0 (listeners (self w)) f value view))
    ∧ cascaded (dependencies (self w)) (λ d, depends_on (dependencies (self w)) d f) f
               (<[f := value]> (state (self w))) st' (notifications evs).
Proof.
  intros Hacyclic Hfuel. rewrite select_run.
  destruct (resetDependentFields_acyclic (dependencies (self w)) fuel f []
              (updated w (<[f := value]> (state (self w))) []))
    as (st' & evs & -> & Hc); try done.
  - constructor.
  - intros p Hp. by apply elem_of_nil in Hp.
  - intros p Hp. by apply elem_of_nil in Hp.
  - simpl. lia.
  - exists st', evs. simpl. rewrite !updated_updated. simpl. done.
Qed.

(** The claim's reading of "transitively depends on". *)
Lemma depends_on_unfold deps d c :
  depends_on deps d c ↔ cascades deps c d ∨ ∃ y, cascades deps y d ∧ depends_on deps y c.
Proof.
  unfold depends_on. split.
  - induction 1 as [c d H|c x d Hcx Hxd IH]; [by left|]. right.
    destruct IH as [Hd|(y & Hyd & Hy)].
    + exists x. split; [done|]. by apply tc_once.
    + exists y. split; [done|]. by eapply tc_l.
  - intros [H|(y & Hyd & Hy)]; [by apply tc_once|]. by eapply tc_r.
Qed.

(** C5: over an acyclic dependency relation, [select(X, v)] returns, and
    afterwards every field that transitively depends on [X] is null in the
    Selection State. *)
Theorem C5_cascade_completeness (w : World) (fuel : nat) (X : string) (v : FieldValue) :
  acyclic (dependencies (self w)) →
  length (dependencies (self w)) < fuel →
  (∃ view, (select fuel X v w).1 = Normal view)
  ∧ ∀ d, depends_on (dependencies (self w)) d X →
         d ∈ map field (dependencies (self w))
         ∧ state (self (after (select fuel X v) w)) !! d = Some FNull.
Proof.
  intros Hacyclic Hfuel.
  destruct (select_acyclic fuel X v w Hacyclic Hfuel) as (st' & evs & Hrun & Hc).
  simpl in Hrun. unfold after. rewrite Hrun. simpl. split; [by eexists|].
  intros d Hd. split; [by eapply depends_on_declared|].
  destruct Hc as (_ & Hnull & _). by apply Hnull.
Qed.

(** C7: over an acyclic dependency relation, [select(F, v)] returns a view
    whose [currentSelections[F]] is [v], and so does [getCurrentState()]
    read right after it. *)
Theorem C7_select_round_trip (w : World) (fuel : nat) (F : string) (v : FieldValue) :
  acyclic (dependencies (self w)) →
  length (dependencies (self w)) < fuel →
  (∃ view, (select fuel F v w).1 = Normal view ∧ currentSelections view !! F = Some v)
  ∧ currentSelections (getCurrentState (self (after (select fuel F v) w))) !! F = Some v.
Proof.
  intros Hacyclic Hfuel.
  destruct (select_acyclic fuel F v w Hacyclic Hfuel) as (st' & evs & Hrun & Hc).
  simpl in Hrun. unfold after. rewrite Hrun. simpl.
  assert (HF : st' !! F = Some v).
  { destruct Hc as (Hn & _). destruct (Hn F) as [->|[Hcyc _]].
    - by rewrite lookup_insert_eq.
    - by destruct (Hacyclic F). }
  split; [|done]. eexists. split; [done|]. done.
Qed.

(** C10: over an acyclic dependency relation, the notifications of one
    [select(X, v)] are reset notifications followed by the one for [X]; each
    reset notification carries null and a view in which its field is null, and
    comes after the reset notifications of all the fields that transitively
    depend on its field and were not null before. *)
Theorem C10_reset_notifications_in_postorder (w : World) (fuel : nat) (X : string)
    (v : FieldValue) :
  acyclic (dependencies (self w)) →
  length (dependencies (self w)) < fuel →
  ∃ view st' evs resets,
    select fuel X v w = (Normal view, updated w st' evs)
    ∧ notifications evs = resets ++ [(X, v, view)]
    ∧ Forall (λ n, note_value n = FNull
                   ∧ depends_on (dependencies (self w)) (note_field n) X
                   ∧ state (self w) !! note_field n ≠ Some FNull
                   ∧ currentSelections (note_view n) !! note_field n = Some FNull) resets
    ∧ (∀ d, depends_on (dependencies (self w)) d X →
            state (self w) !! d ≠ Some FNull → d ∈ map note_field resets)
    ∧ (∀ before n later e,
         resets = before ++ n :: later →
         depends_on (dependencies (self w)) e (note_field n) →
         state (self w) !! e ≠ Some FNull →
         e ∈ map note_field before).
Proof.
  intros Hacyclic Hfuel.
  destruct (select_acyclic fuel X v w Hacyclic Hfuel) as (st' & evs & Hrun & Hc).
  simpl in Hrun. destruct Hc as (Hn & Hnull & Hns & Hall & Hpo).
  assert (HX : ∀ d, depends_on (dependencies (self w)) d X →
                    <[X := v]> (state (self w)) !! d = state (self w) !! d).
  { intros d Hd. rewrite lookup_insert_ne; [done|]. intros <-. by apply (Hacyclic X). }
  eexists _, st', _, (notifications evs). split; [exact Hrun|].
  split; [|split; [|split]].
  - rewrite notifications_app. simpl. by rewrite notifications_deliveries.
  - eapply Forall_impl; [exact Hns|]. intros n (H1 & H2 & H3 & H4).
    split; [done|]. split; [done|]. split; [|done]. by rewrite <- HX.
  - intros d Hd Hset. apply Hall; [done|]. by rewrite HX.
  - intros before n later e Hsplit He Hset.
    assert (HnX : depends_on (dependencies (self w)) (note_field n) X).
    { rewrite Forall_forall in Hns. apply Hns. rewrite Hsplit.
      apply elem_of_app. right. by left. }
    assert (HeX : depends_on (dependencies (self w)) e X).
    { unfold depends_on in *. by eapply tc_transitive. }
    assert (Hin : e ∈ map note_field (notifications evs)).
    { apply Hall; [done|]. by rewrite HX. }
    rewrite Hsplit in Hin, Hpo. rewrite map_app in Hin, Hpo. simpl in Hin, Hpo.
    apply postorder_app in Hpo as (_ & [Hlater _] & _).
    apply elem_of_app in Hin as [Hin|Hin]; [done|].
    apply elem_of_cons in Hin as [->|Hin].
    + by destruct (Hacyclic (note_field n)).
    + by destruct (Hlater e He).
Qed.

Lemma ranked_acyclic deps (rank : string → nat) :
  (∀ dep c, dep ∈ deps → c ∈ dependsOn dep → rank c < rank (field dep)) →
  acyclic deps.
Proof.
  intros Hrank f Hf. unfold depends_on in Hf.
  assert (Hlt : ∀ c d, tc (cascades deps) c d → rank c < rank d).
  { induction 1 as [c d (dep & Hin & <- & Hc)|c x d (dep & Hin & <- & Hc) _ IH].
    - by apply Hrank.
    - specialize (Hrank dep c Hin Hc). lia. }
  specialize (Hlt f f Hf). lia.
Qed.

Lemma ranked_sound rank deps : ranked rank deps = true → acyclic deps.
Proof.
  intros H. apply (ranked_acyclic deps rank). intros dep c Hdep Hc.
  unfold ranked in H. rewrite forallb_forall in H.
  specialize (H dep (proj1 (list_elem_of_In _ _) Hdep)).
  rewrite forallb_forall in H.
  apply Nat.ltb_lt, H, list_elem_of_In, Hc.
Qed.

Lemma productDependencies_acyclic : acyclic (dependencies (self testMatrix)).
Proof.
  apply (ranked_sound (place ["category"; "subcategory"; "brand"; "name"])).
  vm_compute. reflexivity.
Qed.

Lemma C5_cascade_witness :
  acyclic (dependencies (self testMatrix))
  ∧ length (dependencies (self testMatrix)) < 5
  ∧ ∃ view, (select 5 "category" (FStr "Sports") testMatrix).1 = Normal view.
Proof.
  assert (H : length (dependencies (self testMatrix)) < 5) by (vm_compute; lia).
  split; [exact productDependencies_acyclic|]. split; [exact H|].
  exact (proj1 (C5_cascade_completeness testMatrix 5 "category" (FStr "Sports")
                  productDependencies_acyclic H)).
Defined.

Lemma C7_round_trip_witness :
  acyclic (dependencies (self testMatrix))
  ∧ length (dependencies (self testMatrix)) < 5
  ∧ currentSelections
      (getCurrentState (self (after (select 5 "category" (FStr "Sports")) testMatrix)))
    !! "category" = Some (FStr "Sports").
Proof.
  assert (H : length (dependencies (self testMatrix)) < 5) by (vm_compute; lia).
  split; [exact productDependencies_acyclic|]. split; [exact H|].
  exact (proj2 (C7_select_round_trip testMatrix 5 "category" (FStr "Sports")
                  productDependencies_acyclic H)).
Defined.

Lemma C10_postorder_witness :
  acyclic (dependencies (self testMatrix))
  ∧ length (dependencies (self testMatrix)) < 5
  ∧ ∃ view st' evs resets,
      select 5 "category" (FStr "Sports") testMatrix = (Normal view, updated testMatrix st' evs)
      ∧ notifications evs = resets ++ [("category", FStr "Sports", view)].
Proof.
  assert (H : length (dependencies (self testMatrix)) < 5) by (vm_compute; lia).
  split; [exact productDependencies_acyclic|]. split; [exact H|].
  destruct (C10_reset_notifications_in_postorder testMatrix 5 "category" (FStr "Sports")
              productDependencies_acyclic H) as (view & st' & evs & resets & H1 & H2 & _).
  exists view, st', evs, resets. split; [exact H1 | exact H2].
Defined.

(** C1, as stated, fails: the scenario emits one reset notification, not
    three, before the notification for "category". *)
Lemma C1_one_reset_notification_not_three :
  (state (self laptops) !! "category" = Some (FStr "Electronics")
   ∧ state (self laptops) !! "subcategory" = Some (FStr "Laptops")
   ∧ state (self laptops) !! "brand" = Some FNull
   ∧ state (self laptops) !! "name" = Some FNull)
  ∧ length (filter (λ n, note_value n = FNull) (notifications sports_events)) = 1
  ∧ length (filter (λ n, note_value n = FNull) (notifications sports_events)) ≠ 3.
Proof.
  assert (H : length (filter (λ n, note_value n = FNull) (notifications sports_events)) = 1)
    by (vm_compute; reflexivity).
  split; [repeat split; vm_compute; reflexivity|]. split; [exact H|]. rewrite H. lia.
Qed.

(** C1, amended: in the fixture scenario [select("category", "Sports")]
    returns, leaves subcategory, brand and name null, and emits exactly one
    reset notification, for subcategory (the one dependent field that was
    set), before the notification for "category" with "Sports". *)
Theorem C1_fixture_scenario :
  (∃ view, (select 5 "category" (FStr "Sports") laptops).1 = Normal view)
  ∧ state (self sports) !! "category" = Some (FStr "Sports")
  ∧ state (self sports) !! "subcategory" = Some FNull
  ∧ state (self sports) !! "brand" = Some FNull
  ∧ state (self sports) !! "name" = Some FNull
  ∧ trace sports = trace laptops ++ sports_events
  ∧ map (λ n, (note_field n, note_value n)) (notifications sports_events)
    = [("subcategory", FNull); ("category", FStr "Sports")]
  ∧ Forall (λ n, currentSelections (note_view n) !! "subcategory" = Some FNull
                 ∧ currentSelections (note_view n) !! "brand" = Some FNull
                 ∧ currentSelections (note_view n) !! "name" = Some FNull)
           (notifications sports_events).
Proof.
  split; [eexists; vm_compute; reflexivity|].
  repeat split; try (vm_compute; reflexivity).
  apply (bool_decide_unpack _). vm_compute. reflexivity.
Qed.




Lemma notifications_Notify f value view evs :
  notifications (Notify f value view :: evs) = (f, value, view) :: notifications evs.
Proof. done. Qed.

Arguments notifications : simpl never.

Lemma getCurrentState_same this1 this2 :
  same_engine this1 this2 → getCurrentState this1 = getCurrentState this2.
Proof.
  destruct this1 as [d1 ds1 st1 ls1], this2 as [d2 ds2 st2 ls2].
  intros (Hd & Hds & Hst). simpl in *. subst. reflexivity.
Qed.

Lemma same_engine_with_state this1 this2 st :
  same_engine this1 this2 → same_engine (with_state this1 st) (with_state this2 st).
Proof. intros (Hd & Hds & Hst). by repeat split. Qed.

(** The cascade does not look at the listeners: with other listeners it has
    the same outcome, the same selections and the same notifications. *)
Lemma resetDependentFields_listeners fuel c w1 w2 :
  same_engine (self w1) (self w2) →
  ∃ o st' evs1 evs2,
    resetDependentFields fuel c w1 = (o, updated w1 st' evs1)
    ∧ resetDependentFields fuel c w2 = (o, updated w2 st' evs2)
    ∧ notifications evs1 = notifications evs2.
Proof.
  revert c w1 w2. induction fuel as [|fuel IH]; intros c w1 w2 Hsame.
  { exists Diverge, (state (self w1)), [], []. simpl. unfold diverge.
    split; [by rewrite updated_id|]. split; [|done].
    destruct Hsame as (_ & _ & ->). by rewrite updated_id. }
  rewrite !resetDependentFields_S.
  destruct Hsame as (Hd & Hds & Hst). rewrite <- Hds.
  generalize (filter (λ dep, c ∈ dependsOn dep) (dependencies (self w1))). intros l.
  assert (Hsame : same_engine (self w1) (self w2)) by done.
  clear Hd Hds Hst. revert w1 w2 Hsame.
  induction l as [|dep l IHl]; intros w1 w2 Hsame.
  { exists (Normal ()), (state (self w1)), [], []. simpl. unfold ret.
    split; [by rewrite updated_id|]. split; [|done].
    destruct Hsame as (_ & _ & ->). by rewrite updated_id. }
  rewrite !forEach_cons, !reset_body_run.
  assert (Hst : state (self w1) = state (self w2)) by apply Hsame.
  rewrite <- Hst.
  destruct (IH (field dep) (updated w1 (<[field dep:=FNull]> (state (self w1))) [])
               (updated w2 (<[field dep:=FNull]> (state (self w1))) []))
    as (o & st1 & evs1 & evs2 & -> & -> & Hns).
  { by apply same_engine_with_state. }
  destruct o as [[]|e|].
  - rewrite !updated_updated. simpl.
    assert (Hview : getCurrentState (with_state (self w1) st1)
                    = getCurrentState (with_state (self w2) st1)).
    { apply getCurrentState_same. by apply same_engine_with_state. }
    match goal with |- context [forEach l _ ?w1' = _] =>
      match goal with |- context [_ ∧ forEach l _ ?w2' = _ ∧ _] =>
        destruct (IHl w1' w2') as (o' & st2 & evs1' & evs2' & -> & -> & Hns')
      end end.
    { by apply same_engine_with_state. }
    rewrite !updated_updated. eexists _, _, _, _.
    split; [reflexivity|]. split; [reflexivity|].
    rewrite !notifications_app, !notifications_reset_events, Hns, Hns', Hview. done.
  - rewrite !updated_updated. eexists _, _, _, _.
    split; [reflexivity|]. split; [reflexivity|]. by rewrite !notifications_app, Hns.
  - rewrite !updated_updated. eexists _, _, _, _.
    split; [reflexivity|]. split; [reflexivity|]. by rewrite !notifications_app, Hns.
Qed.

Lemma select_listeners fuel f value w1 w2 :
  same_engine (self w1) (self w2) →
  ∃ o st' evs1 evs2,
    select fuel f value w1 = (o, updated w1 st' evs1)
    ∧ select fuel f value w2 = (o, updated w2 st' evs2)
    ∧ notifications evs1 = notifications evs2.
Proof.
  intros Hsame. rewrite !select_run.
  assert (Hst : state (self w1) = state (self w2)) by apply Hsame.
  rewrite <- Hst.
  destruct (resetDependentFields_listeners fuel f
              (updated w1 (<[f:=value]> (state (self w1))) [])
              (updated w2 (<[f:=value]> (state (self w1))) []))
    as (o & st1 & evs1 & evs2 & -> & -> & Hns).
  { by apply same_engine_with_state. }
  assert (Hview : getCurrentState (with_state (self w1) st1)
                  = getCurrentState (with_state (self w2) st1)).
  { apply getCurrentState_same. by apply same_engine_with_state. }
  destruct o as [[]|e|]; rewrite !updated_updated; simpl; eexists _, _, _, _.
  - rewrite Hview. split; [reflexivity|]. split; [reflexivity|].
    rewrite !notifications_app, !notifications_Notify, !notifications_deliveries, Hns. done.
  - split; [reflexivity|]. split; [reflexivity|]. by rewrite ?notifications_app, Hns.
  - split; [reflexivity|]. split; [reflexivity|]. by rewrite ?notifications_app, Hns.
Qed.

Lemma invoked_deliveries i ls f value view :
  invoked (deliveries i ls f value view) = seq i (length ls).
Proof.
  revert i. induction ls as [|l ls IH]; intros i; simpl; [done|].
  unfold invoked in *. rewrite omap_app, IH. by destruct (l f value view).
Qed.

Lemma console_errors_deliveries i ls f value view :
  console_errors (deliveries i ls f value view) = thrown ls f value view.
Proof.
  revert i. induction ls as [|l ls IH]; intros i; simpl; [done|].
  unfold console_errors, thrown in *. simpl. rewrite omap_app, IH.
  by destruct (l f value view).
Qed.

Lemma deliveries_same_event i ls f value view :
  Forall (λ ev, match ev with
                | Invoke _ f' value' view' => f' = f ∧ value' = value ∧ view' = view
                | Notify _ _ _ => False
                | ConsoleError _ => True
                end) (deliveries i ls f value view).
Proof.
  revert i. induction ls as [|l ls IH]; intros i; simpl; [constructor|].
  constructor; [done|]. apply Forall_app. split; [|apply IH].
  destruct (l f value view); repeat constructor.
Qed.

Lemma notifyObservers_passive (pre post : list Observer) f value view :
  Forall (λ o, unregisters o f value view = false) post →
  notifyObservers (length post) (length pre) (pre ++ post) f value view
  = (deliveries (length pre) (map behaviour post) f value view, pre ++ post).
Proof.
  revert pre. induction post as [|o post IH]; intros pre Hpassive; [done|].
  apply Forall_cons in Hpassive as [Ho Hpost]. simpl.
  rewrite list_lookup_middle by done. rewrite Ho.
  specialize (IH (pre ++ [o]) Hpost). rewrite <- app_assoc, length_app in IH. simpl in IH.
  rewrite Nat.add_1_r in IH. rewrite IH. simpl.
  by destruct (behaviour o f value view).
Qed.

(** C8, as stated, fails for an observer that calls the handle of its own
    registration and throws: the splice moves the next observer to the index
    [forEach] has just left, and that observer, still registered, is not
    called for the event. *)
Lemma C8_leaving_thrower_skips_the_next :
  let view := getCurrentState (self testMatrix) in
  let r := notifyObservers 2 0 [leaver; watcher] "category" (FStr "Sports") view in
  r.1 = [Invoke 0 "category" (FStr "Sports") view; ConsoleError "boom"]
  ∧ r.2 = [watcher]
  ∧ invoked r.1 = [0]
  ∧ invoked r.1 ≠ seq 0 (length [leaver; watcher]).
Proof.
  simpl. split; [reflexivity|]. split; [reflexivity|]. split; [reflexivity|]. discriminate.
Qed.

(** C8, amended: at a notification where no observer calls the handle of a
    registration, every registered observer is called with the same event, in
    order, whether or not the ones before it throw; each thrown error is
    reported to the console; the notification itself never throws and leaves
    the dropdown as it was.  With listeners that do not call back into the
    dropdown, [select] and [reset] have the outcome, the selections and the
    notifications they have when no listener throws. *)
Theorem C8_fault_isolation_of_passive_observers (w : World) (obs : list Observer)
    (fuel : nat) (f : string) (value : FieldValue) (view : DropdownState) :
  listeners (self w) = map behaviour obs →
  Forall (λ o, unregisters o f value view = false) obs →
  notifyObservers (length obs) 0 obs f value view
  = (deliveries 0 (listeners (self w)) f value view, obs)
  ∧ (∃ evs,
     notifyListeners f value view w = (Normal (), updated w (state (self w)) (Notify f value view :: evs))
     ∧ evs = deliveries 0 (listeners (self w)) f value view
     ∧ invoked evs = seq 0 (length (listeners (self w)))
     ∧ console_errors evs = thrown (listeners (self w)) f value view
     ∧ Forall (λ ev, match ev with
                     | Invoke _ f' value' view' => f' = f ∧ value' = value ∧ view' = view
                     | Notify _ _ _ => False
                     | ConsoleError _ => True
                     end) evs)
  ∧ self (after (notifyListeners f value view) w) = self w
  ∧ (select fuel f value w).1 = (select fuel f value (silenced w)).1
  ∧ state (self (after (select fuel f value) w))
    = state (self (after (select fuel f value) (silenced w)))
  ∧ notifications (trace (after (select fuel f value) w))
    = notifications (trace (after (select fuel f value) (silenced w)))
  ∧ (reset w).1 = (reset (silenced w)).1
  ∧ state (self (after reset w)) = state (self (after reset (silenced w))).
Proof.
  intros Hls Hpassive. split; [|split; [|split]].
  - rewrite Hls. exact (notifyObservers_passive [] obs f value view Hpassive).
  - exists (deliveries 0 (listeners (self w)) f value view).
    split; [apply notifyListeners_run|]. split; [done|]. split; [apply invoked_deliveries|].
    split; [apply console_errors_deliveries | apply deliveries_same_event].
  - unfold after. rewrite notifyListeners_run. by destruct w as [[] ?].
  - assert (Hsame : same_engine (self w) (self (silenced w))) by done.
    destruct (select_listeners fuel f value w (silenced w) Hsame)
      as (o & st' & evs1 & evs2 & H1 & H2 & Hns).
    unfold after. rewrite H1, H2. simpl.
    split; [done|]. split; [done|]. split; [by rewrite !notifications_app, Hns|].
    rewrite !reset_run. simpl. done.
Qed.

Lemma C8_passive_observers_witness :
  let w := {| self := onChange (behaviour watcher)
                        (onChange (behaviour thrower)
                           (new comprehensiveProducts productDependencies));
              trace := [] |} in
  let view := getCurrentState (self w) in
  listeners (self w) = map behaviour [thrower; watcher]
  ∧ Forall (λ o, unregisters o "category" (FStr "Sports") view = false) [thrower; watcher]
  ∧ notifyObservers 2 0 [thrower; watcher] "category" (FStr "Sports") view
    = (deliveries 0 (listeners (self w)) "category" (FStr "Sports") view, [thrower; watcher]).
Proof.
  intros w view.
  assert (H1 : listeners (self w) = map behaviour [thrower; watcher]) by reflexivity.
  assert (H2 : Forall (λ o, unregisters o "category" (FStr "Sports") view = false)
                 [thrower; watcher]) by (repeat constructor).
  split; [exact H1|]. split; [exact H2|].
  exact (proj1 (C8_fault_isolation_of_passive_observers w [thrower; watcher] 5 "category"
                  (FStr "Sports") view H1 H2)).
Defined.

Example faulty_listener_is_isolated :
  let w := {| self := onChange logging (onChange faulty (new comprehensiveProducts productDependencies));
              trace := [] |} in
  (∃ view, (select 5 "category" (FStr "Sports") w).1 = Normal view)
  ∧ invoked (trace (after (select 5 "category" (FStr "Sports")) w)) = [0; 1]
  ∧ console_errors (trace (after (select 5 "category" (FStr "Sports")) w)) = ["boom"].
Proof.
  simpl. split; [eexists; vm_compute; reflexivity|]. split; vm_compute; reflexivity.
Qed.

(** ** Further properties of the class *)

Lemma find_dependency_None this f :
  f ∉ map field (dependencies this) → find_dependency this f = None.
Proof.
  unfold find_dependency. induction (dependencies this) as [|dep deps IH]; simpl; [done|].
  intros Hf. rewrite not_elem_of_cons in Hf. destruct Hf as [Hne Hf].
  rewrite bool_decide_eq_false_2 by done. by apply IH.
Qed.

Lemma find_dependency_Some this f dep :
  find_dependency this f = Some dep → dep ∈ dependencies this ∧ field dep = f.
Proof.
  unfold find_dependency. intros H. apply find_some in H as [Hin Hf].
  split; [by apply list_elem_of_In|]. by apply bool_decide_eq_true in Hf.
Qed.

Lemma find_dependency_declared this f :
  f ∈ map field (dependencies this) → is_Some (find_dependency this f).
Proof.
  unfold find_dependency. induction (dependencies this) as [|dep deps IH]; simpl.
  - intros H. by apply elem_of_nil in H.
  - intros [->|H]%elem_of_cons.
    + rewrite bool_decide_eq_true_2 by done. by eexists.
    + destruct (bool_decide _); [by eexists | by apply IH].
Qed.

Lemma foldl_getOptions_lookup this (l : list DependencyConfig) (acc : gmap string (list jsval)) f :
  foldl (λ acc dep, <[field dep := getOptions this (field dep)]> acc) acc l !! f
  = if decide (f ∈ map field l) then Some (getOptions this f) else acc !! f.
Proof.
  revert acc. induction l as [|dep l IH]; intros acc; simpl.
  - done.
  - rewrite IH. destruct (decide (f ∈ map field l)) as [Hin|Hnin].
    + rewrite decide_True by (by right). done.
    + destruct (decide (field dep = f)) as [<-|Hne].
      * rewrite decide_True by (by left). by rewrite lookup_insert_eq.
      * rewrite decide_False by (rewrite elem_of_cons; intros [?|?]; done).
        by rewrite lookup_insert_ne.
Qed.

(** X1: where no declared field is named [__proto__] (an assignment to that
    name sets the prototype and no key), [getAllOptions()], and so
    [availableOptions] of the derived view, has exactly the declared fields as
    keys, and holds for each of them what [getOptions] returns. *)
Theorem X1_getAllOptions_is_getOptions_per_declared_field (this : Dropdown) :
  "__proto__" ∉ declared this →
  dom (getAllOptions this) = declared this
  ∧ (∀ f, f ∈ declared this → getAllOptions this !! f = Some (getOptions this f))
  ∧ (∀ f, f ∉ declared this → getAllOptions this !! f = None)
  ∧ availableOptions (getCurrentState this) = getAllOptions this.
Proof.
  intros _.
  assert (Hl : ∀ f, getAllOptions this !! f
               = if decide (f ∈ map field (dependencies this))
                 then Some (getOptions this f) else None).
  { intros f. unfold getAllOptions. by rewrite foldl_getOptions_lookup, lookup_empty. }
  split; [|split; [|split; [|done]]].
  - apply set_eq. intros f. rewrite elem_of_dom, Hl. unfold declared.
    rewrite elem_of_list_to_set. case_decide as H.
    + split; [done|]. by eexists.
    + split; [by intros []|done].
  - intros f Hf. unfold declared in Hf. rewrite elem_of_list_to_set in Hf.
    by rewrite Hl, decide_True.
  - intros f Hf. unfold declared in Hf. rewrite elem_of_list_to_set in Hf.
    by rewrite Hl, decide_False.
Qed.

Lemma X1_getAllOptions_witness :
  ("__proto__" ∉ declared (self laptops))
  ∧ dom (getAllOptions (self laptops)) = declared (self laptops).
Proof.
  assert (H : "__proto__" ∉ declared (self laptops)).
  { apply (bool_decide_unpack _). vm_compute. reflexivity. }
  split; [exact H|].
  exact (proj1 (X1_getAllOptions_is_getOptions_per_declared_field (self laptops) H)).
Defined.

Lemma foldl_applyParent_agree st st' parents l :
  (∀ p, p ∈ parents → st' !! p = st !! p) →
  foldl (applyParent st') l parents = foldl (applyParent st) l parents.
Proof.
  revert l. induction parents as [|p parents IH]; intros l Hag; simpl; [done|].
  rewrite IH by (intros q Hq; apply Hag; by right).
  f_equal. unfold applyParent. rewrite Hag by (by left). done.
Qed.

(** X2: the options of a declared field depend on the selections of its own
    prerequisites only: selections that agree on them give the same options,
    whatever the field itself and the other fields are set to. *)
Theorem X2_getOptions_reads_prerequisites_only (this : Dropdown) (st' : FilterMap)
    (f : string) (dependency : DependencyConfig) :
  find_dependency this f = Some dependency →
  (∀ p, p ∈ dependsOn dependency → st' !! p = state this !! p) →
  getOptions (with_state this st') f = getOptions this f.
Proof.
  intros Hfind Hag. unfold getOptions.
  assert (Hfind' : find_dependency (with_state this st') f = Some dependency) by done.
  rewrite Hfind, Hfind'. simpl. by rewrite (foldl_applyParent_agree (state this) st').
Qed.

Lemma X2_getOptions_witness :
  find_dependency (self laptops) "subcategory"
  = Some {| field := "subcategory"; dependsOn := ["category"] |}
  ∧ getOptions (with_state (self laptops) (<["subcategory" := FNull]> (state (self laptops))))
      "subcategory"
    = getOptions (self laptops) "subcategory".
Proof.
  split; [reflexivity|].
  apply (X2_getOptions_reads_prerequisites_only (self laptops)
           (<["subcategory" := FNull]> (state (self laptops))) "subcategory"
           {| field := "subcategory"; dependsOn := ["category"] |} eq_refl).
  intros p Hp. simpl in Hp. apply list_elem_of_singleton in Hp. rewrite Hp.
  vm_compute. reflexivity.
Defined.

(** X3: a field that was never declared has no options, cannot be selected
    according to [canSelect], and has no entry in [availableOptions]. *)
Theorem X3_undeclared_field_is_empty (this : Dropdown) (f : string) :
  f ∉ declared this →
  getOptions this f = []
  ∧ canSelect this f = false
  ∧ availableOptions (getCurrentState this) !! f = None.
Proof.
  intros Hf. unfold declared in Hf. rewrite elem_of_list_to_set in Hf.
  pose proof (find_dependency_None this f Hf) as Hnone.
  unfold getOptions, canSelect. rewrite Hnone. split; [done|]. split; [done|].
  simpl. unfold getAllOptions. by rewrite foldl_getOptions_lookup, decide_False, lookup_empty.
Qed.

Lemma X3_undeclared_witness :
  ("color" ∉ declared (self testMatrix)) ∧ getOptions (self testMatrix) "color" = [].
Proof.
  assert (H : "color" ∉ declared (self testMatrix)).
  { apply (bool_decide_unpack _). vm_compute. reflexivity. }
  split; [exact H|]. exact (proj1 (X3_undeclared_field_is_empty (self testMatrix) "color" H)).
Defined.

(** [canSelect] spelled out. *)
Lemma canSelect_true this f :
  canSelect this f = true ↔
  ∃ dep, find_dependency this f = Some dep
         ∧ ∀ p, p ∈ dependsOn dep → ∃ v, state this !! p = Some v ∧ v ≠ FNull.
Proof.
  unfold canSelect. destruct (find_dependency this f) as [dep|]; [|split; [done|by intros (? & ? & ?)]].
  rewrite forallb_forall. split.
  - intros H. exists dep. split; [done|]. intros p Hp%list_elem_of_In.
    apply H, bool_decide_eq_true in Hp as [H1 H2].
    destruct (state this !! p) as [v|]; [|done]. exists v. split; [done|]. by intros ->.
  - intros (dep' & [= <-] & H) p Hp%list_elem_of_In. apply bool_decide_eq_true.
    destruct (H p Hp) as (v & -> & Hv). split; [|done]. by intros [= ->].
Qed.

(** X4: over an acyclic dependency relation, after [select(X, v)] a declared
    field with a prerequisite that transitively depends on [X] cannot be
    selected according to [canSelect]: the cascade has reset that prerequisite. *)
Theorem X4_canSelect_false_behind_a_reset (w : World) (fuel : nat) (X F Q : string)
    (v : FieldValue) (dependency : DependencyConfig) :
  acyclic (dependencies (self w)) →
  length (dependencies (self w)) < fuel →
  find_dependency (self w) F = Some dependency →
  Q ∈ dependsOn dependency →
  depends_on (dependencies (self w)) Q X →
  (∃ view, (select fuel X v w).1 = Normal view)
  ∧ canSelect (self (after (select fuel X v) w)) F = false.
Proof.
  intros Hacyclic Hfuel Hfind HQ Hdep.
  destruct (select_acyclic fuel X v w Hacyclic Hfuel) as (st' & evs & Hrun & Hc).
  simpl in Hrun. unfold after. rewrite Hrun. simpl. split; [by eexists|].
  destruct Hc as (_ & Hnull & _).
  apply not_true_is_false. intros (dep & Hfind' & Hall)%canSelect_true.
  assert (dep = dependency) as -> by (unfold find_dependency in *; simpl in *; congruence).
  destruct (Hall Q HQ) as (u & Hu & Hne). simpl in Hu.
  rewrite (Hnull Q Hdep) in Hu. by injection Hu as <-.
Qed.

Lemma X4_canSelect_witness :
  acyclic (dependencies (self testMatrix))
  ∧ length (dependencies (self testMatrix)) < 5
  ∧ canSelect (self (after (select 5 "category" (FStr "Sports")) testMatrix)) "brand" = false.
Proof.
  assert (H : length (dependencies (self testMatrix)) < 5) by (vm_compute; lia).
  split; [exact productDependencies_acyclic|]. split; [exact H|].
  refine (proj2 (X4_canSelect_false_behind_a_reset testMatrix 5 "category" "brand"
                   "subcategory" (FStr "Sports")
                   {| field := "brand"; dependsOn := ["category"; "subcategory"] |}
                   productDependencies_acyclic H eq_refl _ _)).
  - simpl. right. left.
  - apply tc_once. exists {| field := "subcategory"; dependsOn := ["category"] |}.
    split; [|split; [reflexivity|simpl; left]].
    change (dependencies (self testMatrix)) with productDependencies.
    unfold productDependencies. right. left.
Defined.

(** X5: over an acyclic dependency relation, after [select(X, v)] with a
    value that is not null, [canSelect] holds of a declared field all of
    whose prerequisites are [X] itself or fields that were set and do not
    depend on [X]. *)
Theorem X5_canSelect_true_after_select (w : World) (fuel : nat) (X F : string)
    (v : FieldValue) (dependency : DependencyConfig) :
  acyclic (dependencies (self w)) →
  length (dependencies (self w)) < fuel →
  v ≠ FNull →
  find_dependency (self w) F = Some dependency →
  (∀ p, p ∈ dependsOn dependency →
        p = X ∨ (¬ depends_on (dependencies (self w)) p X
                 ∧ ∃ u, state (self w) !! p = Some u ∧ u ≠ FNull)) →
  (∃ view, (select fuel X v w).1 = Normal view)
  ∧ canSelect (self (after (select fuel X v) w)) F = true.
Proof.
  intros Hacyclic Hfuel Hv Hfind Hpre.
  destruct (select_acyclic fuel X v w Hacyclic Hfuel) as (st' & evs & Hrun & Hc).
  simpl in Hrun. unfold after. rewrite Hrun. simpl. split; [by eexists|].
  destruct Hc as (Hn & _).
  apply canSelect_true. exists dependency. split; [done|]. intros p Hp. simpl.
  destruct (Hn p) as [Heq|[Hdep _]].
  - rewrite Heq. destruct (Hpre p Hp) as [->|(_ & u & Hu & Hne)].
    + exists v. by rewrite lookup_insert_eq.
    + destruct (decide (X = p)) as [->|Hne'].
      * exists v. by rewrite lookup_insert_eq.
      * exists u. by rewrite lookup_insert_ne.
  - destruct (Hpre p Hp) as [->|(Hno & _)]; [by destruct (Hacyclic X) | done].
Qed.

Lemma X5_canSelect_witness :
  acyclic (dependencies (self testMatrix))
  ∧ length (dependencies (self testMatrix)) < 5
  ∧ canSelect (self (after (select 5 "category" (FStr "Sports")) testMatrix)) "subcategory"
    = true.
Proof.
  assert (H : length (dependencies (self testMatrix)) < 5) by (vm_compute; lia).
  split; [exact productDependencies_acyclic|]. split; [exact H|].
  refine (proj2 (X5_canSelect_true_after_select testMatrix 5 "category" "subcategory"
                   (FStr "Sports") {| field := "subcategory"; dependsOn := ["category"] |}
                   productDependencies_acyclic H _ eq_refl _)).
  - discriminate.
  - simpl. intros p Hp. apply list_elem_of_singleton in Hp. by left.
Defined.

Lemma initializeSelections_lookup (deps : list DependencyConfig) (st : FilterMap) f :
  foldl (λ st dep, <[field dep := FNull]> st) st deps !! f
  = if decide (f ∈ map field deps) then Some FNull else st !! f.
Proof.
  revert st. induction deps as [|dep deps IH]; intros st; simpl; [done|].
  rewrite IH. destruct (decide (f ∈ map field deps)) as [Hin|Hnin].
  - by rewrite decide_True by (by right).
  - destruct (decide (field dep = f)) as [<-|Hne].
    + rewrite decide_True by (by left). by rewrite lookup_insert_eq.
    + rewrite decide_False by (rewrite elem_of_cons; intros [?|?]; done).
      by rewrite lookup_insert_ne.
Qed.

Lemma matches_all_null st item :
  (∀ f v, st !! f = Some v → v = FNull) → matches st item.
Proof. intros H. apply matches_spec. intros f v Hf Hv. by destruct (Hv (H f v Hf)). Qed.

Lemma filter_all {A} (P : A → Prop) `{!∀ x, Decision (P x)} (l : list A) :
  (∀ x, x ∈ l → P x) → filter P l = l.
Proof.
  induction l as [|x l IH]; intros Hall; [done|].
  rewrite filter_cons, decide_True by (apply Hall; by left).
  f_equal. apply IH. intros y Hy. apply Hall. by right.
Qed.

(** X6: [reset()] always returns, also where the declarations are cyclic.
    It nulls the entry of every declared field, leaves the entries of other
    names as they are, keeps the dataset, the declarations and the listeners,
    emits the one notification ("reset", null, view), and returns that view,
    which is the derived view of the new selections. *)
Theorem X6_reset_nulls_declared_fields (w : World) :
  ∃ view st' evs,
    reset w = (Normal view, updated w st' evs)
    ∧ view = getCurrentState (self (after reset w))
    ∧ notifications evs = [("reset", FNull, view)]
    ∧ (∀ f, f ∈ declared (self w) → st' !! f = Some FNull)
    ∧ (∀ f, f ∉ declared (self w) → st' !! f = state (self w) !! f).
Proof.
  eexists _, _, _. rewrite reset_run. simpl. split; [reflexivity|].
  split; [unfold after; by rewrite reset_run|].
  split; [by rewrite notifications_Notify, notifications_deliveries|].
  unfold declared. split; intros f Hf; rewrite elem_of_list_to_set in Hf;
    rewrite initializeSelections_lookup; [by rewrite decide_True | by rewrite decide_False].
Qed.

(** X7: after [reset()] on selections whose set entries all belong to
    declared fields, the filtered data is the whole dataset, in its order. *)
Theorem X7_reset_shows_whole_dataset (w : World) :
  (∀ f v, state (self w) !! f = Some v → v ≠ FNull → f ∈ declared (self w)) →
  ∃ view, (reset w).1 = Normal view
          ∧ filteredData view = data (self w)
          ∧ getFilteredData (self (after reset w)) = data (self w).
Proof.
  intros Hdecl. unfold after. rewrite reset_run. simpl. eexists. split; [reflexivity|].
  assert (H : getFilteredData (initializeSelections (self w)) = data (self w)).
  { rewrite getFilteredData_filter_matches. simpl. apply filter_all. intros item _.
    apply matches_all_null. intros f v. rewrite initializeSelections_lookup.
    case_decide as Hf; [by intros [= <-]|]. intros Hv.
    destruct (decide (v = FNull)) as [?|Hne]; [done|].
    destruct Hf. specialize (Hdecl f v Hv Hne). unfold declared in Hdecl.
    by rewrite elem_of_list_to_set in Hdecl. }
  split; [exact H|]. unfold getFilteredData in *. simpl in *. exact H.
Qed.

Lemma X7_reset_witness :
  (∀ f v, state (self sports) !! f = Some v → v ≠ FNull → f ∈ declared (self sports))
  ∧ getFilteredData (self (after reset sports)) = data (self sports).
Proof.
  assert (H : ∀ f v, state (self sports) !! f = Some v → v ≠ FNull → f ∈ declared (self sports)).
  { intros f v Hf _. apply (elem_of_dom_2 (D := gset string)) in Hf. revert f Hf.
    apply (bool_decide_unpack _). vm_compute. reflexivity. }
  split; [exact H|].
  destruct (X7_reset_shows_whole_dataset sports H) as (view & _ & _ & Hd). exact Hd.
Defined.

Lemma narrowed_all_unset st parents item :
  (∀ p, p ∈ parents → unset st p) → narrowed st parents item.
Proof.
  intros H p v Hp Hv Hne. destruct (H p Hp) as [Hno|Hno]; rewrite Hno in Hv; [done|].
  by injection Hv as <-.
Qed.

(** X8: after [reset()], the options of a declared field of an ordinary name
    whose prerequisites are all declared are the distinct non-null values of
    the field over the whole dataset. *)
Theorem X8_reset_unfilters_options (w : World) (f : string) (dependency : DependencyConfig)
    (val : jsval) :
  find_dependency (self w) f = Some dependency →
  ordinary f →
  "__proto__" ∉ declared (self w) →
  (∀ p, p ∈ dependsOn dependency → p ∈ declared (self w)) →
  val ∈ getOptions (self (after reset w)) f ↔
  val ≠ None ∧ val ≠ Some FNull ∧ ∃ item, item ∈ data (self w) ∧ item !! f = val.
Proof.
  intros Hfind _ _ Hpre. unfold after. rewrite reset_run. simpl.
  assert (Hfind' : find_dependency (with_state (initializeSelections (self w))
                     (state (initializeSelections (self w)))) f = Some dependency) by done.
  rewrite (getOptions_elem_of _ _ _ _ Hfind'). simpl.
  assert (Hnar : ∀ item, narrowed
            (foldl (λ st dep, <[field dep := FNull]> st) (state (self w)) (dependencies (self w)))
            (dependsOn dependency) item).
  { intros item. apply narrowed_all_unset. intros p Hp. right.
    rewrite initializeSelections_lookup, decide_True; [done|].
    specialize (Hpre p Hp). unfold declared in Hpre. by rewrite elem_of_list_to_set in Hpre. }
  split.
  - intros (H1 & H2 & item & Hin & _ & Hv). eauto.
  - intros (H1 & H2 & item & Hin & Hv). split; [done|]. split; [done|]. exists item. eauto.
Qed.

Lemma X8_reset_options_witness :
  find_dependency (self sports) "brand"
  = Some {| field := "brand"; dependsOn := ["category"; "subcategory"] |}
  ∧ ordinary "brand"
  ∧ ("__proto__" ∉ declared (self sports))
  ∧ (Some (FStr "Apple") ∈ getOptions (self (after reset sports)) "brand").
Proof.
  assert (H1 : ordinary "brand") by (apply (bool_decide_unpack _); vm_compute; reflexivity).
  assert (H2 : "__proto__" ∉ declared (self sports)).
  { apply (bool_decide_unpack _). vm_compute. reflexivity. }
  split; [reflexivity|]. split; [exact H1|]. split; [exact H2|].
  assert (Hpre : ∀ p, p ∈ dependsOn {| field := "brand"; dependsOn := ["category"; "subcategory"] |} →
                      p ∈ declared (self sports)).
  { apply Forall_forall. apply (bool_decide_unpack _). vm_compute. reflexivity. }
  apply (proj2 (X8_reset_unfilters_options sports "brand"
                  {| field := "brand"; dependsOn := ["category"; "subcategory"] |}
                  (Some (FStr "Apple")) eq_refl H1 H2 Hpre)).
  split; [discriminate|]. split; [discriminate|].
  exists (product "1" "iPhone 14" "Electronics" "Smartphones" "Apple").
  split; [left | vm_compute; reflexivity].
Defined.

(** X9: where the declared fields and their prerequisites have ordinary
    names, a new dropdown has the entry null for every declared field and no
    other entry, no listener, the whole dataset as filtered data, and
    [canSelect] holds exactly of the declared fields whose (first, in sorted
    order) declaration has no prerequisites. *)
Theorem X9_new_dropdown_is_all_unset (data0 : list DataItem) (deps : list DependencyConfig) :
  Forall (λ dep, ordinary (field dep) ∧ Forall ordinary (dependsOn dep)) deps →
  (∀ f, state (new data0 deps) !! f
        = if decide (f ∈ map field deps) then Some FNull else None)
  ∧ listeners (new data0 deps) = []
  ∧ getFilteredData (new data0 deps) = data0
  ∧ (∀ f, canSelect (new data0 deps) f = true ↔
          ∃ dep, find_dependency (new data0 deps) f = Some dep ∧ dependsOn dep = []).
Proof.
  intros _.
  assert (Hst : ∀ f, state (new data0 deps) !! f
                     = if decide (f ∈ map field deps) then Some FNull else None).
  { intros f. unfold new. simpl. rewrite initializeSelections_lookup, lookup_empty.
    unfold sortDependencies.
    destruct (decide (f ∈ map field deps)) as [H|H];
      [rewrite decide_True | rewrite decide_False]; try done;
      by rewrite sort_by_perm. }
  split; [exact Hst|]. split; [done|]. split.
  - rewrite getFilteredData_filter_matches. apply filter_all. intros item _.
    apply matches_all_null. intros f v. rewrite Hst. by case_decide; intros [= <-].
  - intros f. rewrite canSelect_true. split.
    + intros (dep & Hfind & Hall). exists dep. split; [done|].
      destruct (dependsOn dep) as [|p ps]; [done|].
      destruct (Hall p) as (v & Hv & Hne); [by left|].
      rewrite Hst in Hv. case_decide; [injection Hv as <-|]; done.
    + intros (dep & Hfind & Hnil). exists dep. split; [done|].
      rewrite Hnil. intros p Hp. by apply elem_of_nil in Hp.
Qed.

Lemma X9_new_dropdown_witness :
  Forall (λ dep, ordinary (field dep) ∧ Forall ordinary (dependsOn dep)) productDependencies
  ∧ getFilteredData (new comprehensiveProducts productDependencies) = comprehensiveProducts.
Proof.
  assert (H : Forall (λ dep, ordinary (field dep) ∧ Forall ordinary (dependsOn dep))
                productDependencies).
  { apply (bool_decide_unpack _). vm_compute. reflexivity. }
  split; [exact H|].
  exact (proj1 (proj2 (proj2 (X9_new_dropdown_is_all_unset comprehensiveProducts
                                productDependencies H)))).
Defined.

(** X10: over an acyclic dependency relation, the view that [select]
    returns is the payload of its last notification and is what
    [getCurrentState()] returns right after it. *)
Theorem X10_select_returns_the_final_view (w : World) (fuel : nat) (f : string)
    (v : FieldValue) :
  acyclic (dependencies (self w)) →
  length (dependencies (self w)) < fuel →
  ∃ view,
    (select fuel f v w).1 = Normal view
    ∧ view = getCurrentState (self (after (select fuel f v) w))
    ∧ last (notifications (trace (after (select fuel f v) w))) = Some (f, v, view).
Proof.
  intros Hacyclic Hfuel.
  destruct (select_acyclic fuel f v w Hacyclic Hfuel) as (st' & evs & Hrun & _).
  simpl in Hrun. unfold after. rewrite Hrun. simpl. eexists. split; [reflexivity|].
  split; [done|].
  rewrite !notifications_app, notifications_Notify, notifications_deliveries.
  rewrite app_assoc. apply last_snoc.
Qed.

Lemma X10_final_view_witness :
  acyclic (dependencies (self testMatrix))
  ∧ length (dependencies (self testMatrix)) < 5
  ∧ ∃ view, (select 5 "category" (FStr "Sports") testMatrix).1 = Normal view
            ∧ view = getCurrentState (self (after (select 5 "category" (FStr "Sports")) testMatrix)).
Proof.
  assert (H : length (dependencies (self testMatrix)) < 5) by (vm_compute; lia).
  split; [exact productDependencies_acyclic|]. split; [exact H|].
  destruct (X10_select_returns_the_final_view testMatrix 5 "category" (FStr "Sports")
              productDependencies_acyclic H) as (view & H1 & H2 & _).
  exists view. split; [exact H1 | exact H2].
Defined.

Lemma select_without_dependents_run fuel f v w :
  (∀ dep, dep ∈ dependencies (self w) → f ∉ dependsOn dep) →
  select (S fuel) f v w
  = (Normal (getCurrentState (with_state (self w) (<[f := v]> (state (self w))))),
     updated w (<[f := v]> (state (self w)))
       (Notify f v (getCurrentState (with_state (self w) (<[f := v]> (state (self w)))))
        :: deliveries 0 (listeners (self w)) f v
             (getCurrentState (with_state (self w) (<[f := v]> (state (self w))))))).
Proof.
  intros Hleaf. rewrite select_run, resetDependentFields_S. simpl.
  assert (Hnil : filter (λ dep, f ∈ dependsOn dep) (dependencies (self w)) = []).
  { induction (dependencies (self w)) as [|dep deps IH]; [done|].
    rewrite filter_cons, decide_False by (apply Hleaf; by left).
    apply IH. intros d Hd. apply Hleaf. by right. }
  rewrite Hnil. simpl. unfold ret. simpl. by rewrite updated_updated.
Qed.





Lemma tc_first_step {A} (R : relation A) x z : tc R x z → ∃ y, R x y ∧ rtc R y z.
Proof.
  intros H. inversion H as [? ? Hxz|? y ? Hxy Hyz]; subst.
  - exists z. split; [done|apply rtc_refl].
  - exists y. split; [done|by apply tc_rtc].
Qed.

Lemma reset_body_safe fuel dep w :
  ∃ o st' evs,
    reset_body fuel dep w = (o, updated w st' evs) ∧ (o = Normal () ∨ o = Diverge).
Proof.
  rewrite reset_body_run.
  destruct (resetDependentFields_safe fuel (field dep)
              (updated w (<[field dep:=FNull]> (state (self w))) []))
    as (o & st1 & evs1 & -> & [->| ->] & _); rewrite ?updated_updated; simpl;
    rewrite ?updated_updated; eexists _, _, _; split; eauto.
Qed.

(** Where the cascade from [c] leads into a cycle, no fuel is enough. *)
Lemma resetDependentFields_cyclic deps d fuel c w :
  dependencies (self w) = deps →
  depends_on deps d d →
  rtc (cascades deps) c d →
  (resetDependentFields fuel c w).1 = Diverge.
Proof.
  intros Hdeps Hcycle. revert c w Hdeps.
  induction fuel as [|fuel IH]; intros c w Hdeps Hreach; [done|].
  assert (Hstep : ∃ e, cascades deps c e ∧ rtc (cascades deps) e d).
  { apply tc_first_step. unfold depends_on in Hcycle. by eapply tc_rtc_l. }
  destruct Hstep as (e & (dep & Hin & <- & Hc) & He).
  rewrite resetDependentFields_S, Hdeps.
  assert (Hl : dep ∈ filter (λ dep, c ∈ dependsOn dep) deps) by (by apply list_elem_of_filter).
  revert Hl. generalize (filter (λ dep, c ∈ dependsOn dep) deps). intros l.
  revert w Hdeps. induction l as [|x l IHl]; intros w Hdeps Hl.
  { by apply elem_of_nil in Hl. }
  rewrite forEach_cons.
  destruct (decide (x = dep)) as [->|Hne].
  - rewrite reset_body_run.
    specialize (IH (field dep) (updated w (<[field dep:=FNull]> (state (self w))) []) Hdeps He).
    destruct (resetDependentFields fuel (field dep) _) as [o w2]. simpl in IH. by subst o.
  - destruct (reset_body_safe fuel x w) as (o & st' & evs & -> & [->| ->]); [|done].
    apply IHl; [done|]. apply elem_of_cons in Hl as [?|?]; [by subst|done].
Qed.

(** X13: where the field selected lies on a cycle of the dependency
    relation, or a field that depends on it does, [select] does not return:
    the cascade recurses without end, whatever the fuel. *)
Theorem X13_select_on_a_cycle_diverges (w : World) (fuel : nat) (c d : string)
    (v : FieldValue) :
  depends_on (dependencies (self w)) d d →
  c = d ∨ depends_on (dependencies (self w)) d c →
  (select fuel c v w).1 = Diverge.
Proof.
  intros Hcycle Hreach. rewrite select_run.
  pose proof (resetDependentFields_cyclic (dependencies (self w)) d fuel c
                (updated w (<[c := v]> (state (self w))) []) eq_refl Hcycle) as H.
  destruct (resetDependentFields fuel c _) as [o w2]. simpl in H.
  rewrite H; [done|]. destruct Hreach as [->|Hd]; [apply rtc_refl | by apply tc_rtc].
Qed.

Lemma X13_cycle_witness :
  depends_on (dependencies (self selfDependent)) "a" "a"
  ∧ (select 7 "a" (FStr "x") selfDependent).1 = Diverge.
Proof.
  assert (H : depends_on (dependencies (self selfDependent)) "a" "a").
  { apply tc_once. exists {| field := "a"; dependsOn := ["a"] |}.
    split; [left|split; [reflexivity|left]]. }
  split; [exact H|].
  exact (X13_select_on_a_cycle_diverges selfDependent 7 "a" "a" (FStr "x") H (or_introl eq_refl)).
Defined.

Lemma notes_ok_nil this st : notes_ok this st st [].
Proof. split; [constructor|]. split; [constructor|done]. Qed.

Lemma notes_ok_app this st1 st2 st3 ns1 ns2 :
  notes_ok this st1 st2 ns1 → notes_ok this st2 st3 ns2 →
  notes_ok this st1 st3 (ns1 ++ ns2).
Proof.
  intros (Hnd1 & Hall1 & Hk1) (Hnd2 & Hall2 & Hk2).
  rewrite Forall_forall in Hall1, Hall2.
  split; [|split].
  - rewrite map_app. apply NoDup_app. split; [done|]. split; [|done].
    intros f (n1 & -> & Hn1)%list_elem_of_fmap (n2 & Heq & Hn2)%list_elem_of_fmap.
    destruct (Hall1 n1 Hn1) as (_ & _ & Hnull & _).
    destruct (Hall2 n2 Hn2) as (_ & Hset & _). apply Hset. by rewrite <- Heq.
  - apply Forall_app. split; apply Forall_forall; intros n Hn.
    + destruct (Hall1 n Hn) as (H1 & H2 & H3 & H4). repeat split; try done. by apply Hk2.
    + destruct (Hall2 n Hn) as (H1 & H2 & H3 & H4). repeat split; try done.
      intros Hst. apply H2. by apply Hk1.
  - intros f Hf. by apply Hk2, Hk1.
Qed.

(** The body of the loop, for the declaration of [d]. *)
Lemma notes_ok_body this st sb d ns :
  notes_ok this (<[d := FNull]> st) sb ns →
  notes_ok this st sb
    (ns ++ if decide (st !! d = Some FNull) then []
           else [(d, FNull, getCurrentState (with_state this sb))]).
Proof.
  intros (Hnd & Hall & Hk). rewrite Forall_forall in Hall.
  assert (Hd : sb !! d = Some FNull) by (apply Hk; by rewrite lookup_insert_eq).
  assert (Hfresh : ∀ n, n ∈ ns → note_field n ≠ d).
  { intros n Hn Heq. destruct (Hall n Hn) as (_ & Hset & _).
    apply Hset. by rewrite Heq, lookup_insert_eq. }
  split; [|split].
  - rewrite map_app. apply NoDup_app. split; [done|]. split.
    + intros f (n & -> & Hn)%list_elem_of_fmap Hin.
      destruct (decide _); [by apply elem_of_nil in Hin|].
      apply list_elem_of_singleton in Hin. by apply (Hfresh n Hn).
    + destruct (decide _); [constructor | apply NoDup_singleton].
  - apply Forall_app. split.
    + apply Forall_forall. intros n Hn. destruct (Hall n Hn) as (H1 & H2 & H3 & H4).
      repeat split; try done. rewrite lookup_insert_ne in H2; [done|].
      intros Heq. by apply (Hfresh n Hn).
    + destruct (decide _) as [|Hset]; constructor; [|constructor].
      repeat split; done.
  - intros f Hf. apply Hk. destruct (decide (d = f)) as [->|Hne].
    + by rewrite lookup_insert_eq.
    + by rewrite lookup_insert_ne.
Qed.

Lemma resetDependentFields_notes fuel c w :
  ∃ o st' evs,
    resetDependentFields fuel c w = (o, updated w st' evs)
    ∧ notes_ok (self w) (state (self w)) st' (notifications evs).
Proof.
  revert c w. induction fuel as [|fuel IH]; intros c w.
  { exists Diverge, (state (self w)), []. rewrite updated_id. split; [done|apply notes_ok_nil]. }
  rewrite resetDependentFields_S.
  generalize (filter (λ dep, c ∈ dependsOn dep) (dependencies (self w))). intros l.
  revert w. induction l as [|dep l IHl]; intros w.
  { exists (Normal ()), (state (self w)), []. simpl. unfold ret. rewrite updated_id.
    split; [done|apply notes_ok_nil]. }
  rewrite forEach_cons, reset_body_run.
  destruct (IH (field dep) (updated w (<[field dep:=FNull]> (state (self w))) []))
    as (o & st1 & evs1 & -> & Hok1).
  simpl in Hok1.
  assert (Hbody : notes_ok (self w) (state (self w)) st1
            (notifications evs1 ++
             if decide (state (self w) !! field dep = Some FNull) then []
             else [(field dep, FNull, getCurrentState (with_state (self w) st1))])).
  { apply notes_ok_body. exact Hok1. }
  destruct o as [[]|e|].
  - rewrite !updated_updated. simpl.
    match goal with |- context [forEach l _ ?w'] =>
      destruct (IHl w') as (o2 & st2 & evs2 & -> & Hok2) end.
    rewrite updated_updated. eexists _, _, _. split; [reflexivity|].
    simpl in Hok2. rewrite !notifications_app, notifications_reset_events.
    eapply notes_ok_app; [exact Hbody|exact Hok2].
  - rewrite updated_updated. eexists _, _, _. split; [reflexivity|].
    rewrite notifications_app. simpl.
    apply (notes_ok_app _ _ (<[field dep:=FNull]> (state (self w))) _ [] _); [|exact Hok1].
    split; [constructor|split; [constructor|]].
    intros f Hf. destruct (decide (field dep = f)) as [->|Hne];
      [by rewrite lookup_insert_eq | by rewrite lookup_insert_ne].
  - rewrite updated_updated. eexists _, _, _. split; [reflexivity|].
    rewrite notifications_app. simpl.
    apply (notes_ok_app _ _ (<[field dep:=FNull]> (state (self w))) _ [] _); [|exact Hok1].
    split; [constructor|split; [constructor|]].
    intros f Hf. destruct (decide (field dep = f)) as [->|Hne];
      [by rewrite lookup_insert_eq | by rewrite lookup_insert_ne].
Qed.

(** X14: whatever the declarations, the fuel and the outcome, the
    notifications of one [select(f, v)] are reset notifications, followed by
    the notification for [f] if the call returns.  No field gets two reset
    notifications; each is for a field whose entry was not null after the
    assignment of [f], carries null, and every payload is the derived view of
    the selections it carries. *)
Theorem X14_reset_notifications_once_and_genuine (w : World) (fuel : nat) (f : string)
    (v : FieldValue) :
  ∃ o st' evs resets,
    select fuel f v w = (o, updated w st' evs)
    ∧ notifications evs
      = resets ++ match o with Normal view => [(f, v, view)] | _ => [] end
    ∧ NoDup (map note_field resets)
    ∧ Forall (λ n, note_value n = FNull
                   ∧ <[f := v]> (state (self w)) !! note_field n ≠ Some FNull
                   ∧ genuine (self w) (note_view n)) resets
    ∧ match o with Normal view => genuine (self w) view | _ => True end.
Proof.
  rewrite select_run.
  destruct (resetDependentFields_notes fuel f (updated w (<[f := v]> (state (self w))) []))
    as (o & st' & evs & -> & Hnd & Hall & _).
  simpl in Hall.
  assert (Hall' : Forall (λ n, note_value n = FNull
                   ∧ <[f := v]> (state (self w)) !! note_field n ≠ Some FNull
                   ∧ genuine (self w) (note_view n)) (notifications evs)).
  { eapply Forall_impl; [exact Hall|]. intros n (H1 & H2 & _ & H4). done. }
  destruct o as [[]|e|]; rewrite !updated_updated; simpl.
  - eexists _, _, _, (notifications evs). split; [reflexivity|].
    split; [by rewrite !notifications_app, notifications_Notify, notifications_deliveries|].
    done.
  - eexists _, _, _, (notifications evs). split; [reflexivity|].
    split; [by rewrite app_nil_r|]. done.
  - eexists _, _, _, (notifications evs). split; [reflexivity|].
    split; [by rewrite app_nil_r|]. done.
Qed.



(** X16: where no record that agrees with the set prerequisites of a
    declared field of an ordinary name has a value at the field (in
    particular over an empty dataset), the field has no options. *)
Theorem X16_no_match_no_options (this : Dropdown) (f : string)
    (dependency : DependencyConfig) :
  find_dependency this f = Some dependency →
  ordinary f →
  (∀ item, item ∈ data this → narrowed (state this) (dependsOn dependency) item →
           item !! f = None ∨ item !! f = Some FNull) →
  getOptions this f = [].
Proof.
  intros Hfind _ Hno. destruct (getOptions this f) as [|val opts] eqn:Hopts; [done|].
  assert (Hin : val ∈ getOptions this f) by (rewrite Hopts; by left).
  apply (getOptions_elem_of _ _ _ _ Hfind) in Hin
    as (H1 & H2 & item & Hitem & Hnar & Hval).
  destruct (Hno item Hitem Hnar); congruence.
Qed.

Lemma X16_no_match_witness :
  find_dependency (create [] productDependencies) "brand"
  = Some {| field := "brand"; dependsOn := ["category"; "subcategory"] |}
  ∧ ordinary "brand"
  ∧ getOptions (create [] productDependencies) "brand" = [].
Proof.
  assert (H1 : ordinary "brand") by (apply (bool_decide_unpack _); vm_compute; reflexivity).
  split; [reflexivity|]. split; [exact H1|].
  apply (X16_no_match_no_options (create [] productDependencies) "brand"
           {| field := "brand"; dependsOn := ["category"; "subcategory"] |} eq_refl H1).
  intros item Hitem. simpl in Hitem. by apply elem_of_nil in Hitem.
Defined.

Lemma list_find_first {A} (P : A → Prop) `{!∀ x, Decision (P x)} (l1 l2 : list A) x :
  Forall (λ y, ¬ P y) l1 → P x → list_find P (l1 ++ x :: l2) = Some (length l1, x).
Proof.
  intros Hl1 Hx. induction Hl1 as [|y l1 Hy Hl1 IH]; simpl.
  - by rewrite decide_True.
  - rewrite decide_False by done. by rewrite IH.
Qed.

Lemma list_find_none {A} (P : A → Prop) `{!∀ x, Decision (P x)} (l : list A) :
  Forall (λ y, ¬ P y) l → list_find P l = None.
Proof.
  induction 1 as [|y l Hy Hl IH]; simpl; [done|].
  rewrite decide_False by done. by rewrite IH.
Qed.

Lemma delete_length_app {A} (l1 l2 : list A) x : delete (length l1) (l1 ++ x :: l2) = l1 ++ l2.
Proof. induction l1 as [|y l1 IH]; simpl; [done|]. by rewrite IH. Qed.

(** X17: the handle that [onChange(listener)] returns, called right away,
    takes the listener out again and leaves the dropdown as it was, provided
    the same function was not registered before. *)
Theorem X17_unsubscribe_after_onChange (this : Dropdown) (listener : ChangeListener)
    (same : ChangeListener → bool) :
  same listener = true →
  (∀ x, x ∈ listeners this → same x = false) →
  unsubscribe same (onChange listener this) = this.
Proof.
  intros Hsame Hfresh. unfold unsubscribe, onChange. simpl.
  rewrite (list_find_first (λ x, same x = true) (listeners this) [] listener).
  - rewrite delete_length_app, app_nil_r. by destruct this.
  - apply Forall_forall. intros x Hx. by rewrite (Hfresh x Hx).
  - done.
Qed.

Lemma X17_unsubscribe_witness :
  (λ _ : ChangeListener, true) logging = true
  ∧ unsubscribe (λ _, true)
      (onChange logging (new comprehensiveProducts productDependencies))
    = new comprehensiveProducts productDependencies.
Proof.
  split; [reflexivity|].
  apply (X17_unsubscribe_after_onChange (new comprehensiveProducts productDependencies)
           logging (λ _, true) eq_refl).
  intros x Hx. simpl in Hx. by apply elem_of_nil in Hx.
Defined.

(** X18: the handle takes out one registration, the first one of its
    listener, and keeps the others in their order; once the listener is not
    registered any more, calling the handle changes nothing.  It never touches
    the dataset, the declarations or the selections. *)
Theorem X18_unsubscribe_takes_out_the_first (this : Dropdown) (same : ChangeListener → bool) :
  (∀ before x later,
     listeners this = before ++ x :: later →
     same x = true → (∀ y, y ∈ before → same y = false) →
     listeners (unsubscribe same this) = before ++ later)
  ∧ ((∀ x, x ∈ listeners this → same x = false) → unsubscribe same this = this)
  ∧ same_engine (unsubscribe same this) this.
Proof.
  split; [|split].
  - intros before x later Hl Hx Hbefore. unfold unsubscribe. rewrite Hl.
    rewrite (list_find_first (λ x, same x = true) before later x); [|
      apply Forall_forall; intros y Hy; by rewrite (Hbefore y Hy) | done].
    simpl. apply delete_length_app.
  - intros Hnone. unfold unsubscribe.
    rewrite (list_find_none (λ x, same x = true)); [done|].
    apply Forall_forall. intros y Hy. by rewrite (Hnone y Hy).
  - unfold unsubscribe. destruct (list_find _ _) as [[i x]|]; done.
Qed.

Lemma sort_by_sorted_id {A} (le : A → A → bool) (l : list A) :
  Sorted (λ a b, le a b = true) l → sort_by le l = l.
Proof.
  induction 1 as [|x l Hl IH Hx]; [done|].
  change (sort_by le (x :: l)) with (insert_by le x (sort_by le l)).
  rewrite IH. destruct Hx as [|y l' Hxy]; simpl; [done|].
  by rewrite Hxy.
Qed.

(** X19: declarations given in an order of non-decreasing [dependsOn] size
    keep that order in the dropdown, and so does [getSelectionSequence()]; the
    declarations of a dropdown, given to a new one, keep their order. *)
Theorem X19_sorted_declarations_keep_their_order (data0 : list DataItem)
    (deps : list DependencyConfig) :
  Sorted (λ a b, length (dependsOn a) ≤ length (dependsOn b)) deps →
  dependencies (new data0 deps) = deps
  ∧ getSelectionSequence (new data0 deps) = map field deps
  ∧ ∀ data1 deps1,
      dependencies (new data0 (dependencies (new data1 deps1)))
      = dependencies (new data1 deps1).
Proof.
  intros Hsorted.
  assert (Hid : ∀ l, Sorted (λ a b, length (dependsOn a) ≤ length (dependsOn b)) l →
                     sortDependencies l = l).
  { intros l Hl. apply sort_by_sorted_id.
    induction Hl as [|x l Hl IH Hx]; constructor; [done|].
    destruct Hx; constructor. by apply Nat.leb_le. }
  unfold getSelectionSequence. simpl. rewrite (Hid deps Hsorted).
  split; [done|]. split; [done|]. intros data1 deps1. apply Hid.
  apply StronglySorted_Sorted.
  eapply StronglySorted_weaken; [|apply sort_by_sorted].
  - intros a b Hab. simpl in Hab. by apply Nat.leb_le.
  - intros x y Hxy. apply Nat.leb_gt in Hxy. apply Nat.leb_le. lia.
  - intros x y z Hxy Hyz. apply Nat.leb_le in Hxy, Hyz. apply Nat.leb_le. lia.
Qed.

Lemma X19_sorted_witness :
  Sorted (λ a b, length (dependsOn a) ≤ length (dependsOn b)) productDependencies
  ∧ getSelectionSequence (new comprehensiveProducts productDependencies)
    = ["category"; "subcategory"; "brand"; "name"].
Proof.
  assert (H : Sorted (λ a b, length (dependsOn a) ≤ length (dependsOn b)) productDependencies).
  { unfold productDependencies. repeat constructor; simpl; lia. }
  split; [exact H|].
  exact (proj1 (proj2 (X19_sorted_declarations_keep_their_order comprehensiveProducts
                         productDependencies H))).
Defined.

(** X20: the product dropdown of [DropdownUtility.createProductDropdown],
    over any list of products, offers the fields in the order category,
    subcategory, brand, name, and its declarations are acyclic: every [select]
    on it returns. *)
Theorem X20_createProductDropdown_chain (products : list DataItem) (tr : list event)
    (f : string) (v : FieldValue) :
  getSelectionSequence (createProductDropdown products)
  = ["category"; "subcategory"; "brand"; "name"]
  ∧ acyclic (dependencies (createProductDropdown products))
  ∧ ∃ view,
      (select 5 f v {| self := createProductDropdown products; trace := tr |}).1
      = Normal view.
Proof.
  assert (Hacyclic : acyclic (dependencies (createProductDropdown products))).
  { apply (ranked_sound (place ["category"; "subcategory"; "brand"; "name"])).
    vm_compute. reflexivity. }
  split; [reflexivity|]. split; [exact Hacyclic|].
  destruct (select_acyclic 5 f v {| self := createProductDropdown products; trace := tr |})
    as (st' & evs & Hrun & _).
  - exact Hacyclic.
  - simpl. lia.
  - simpl in Hrun. rewrite Hrun. by eexists.
Qed.

(** X21: whatever the declarations, the fuel and the outcome, [select(f, v)]
    changes no entry other than that of [f] and those of the fields that
    transitively depend on [f], and these it only ever sets to null. *)
Theorem X21_select_touches_dependents_only (w : World) (fuel : nat) (f g : string)
    (v : FieldValue) :
  g ≠ f →
  state (self (after (select fuel f v) w)) !! g = state (self w) !! g
  ∨ (depends_on (dependencies (self w)) g f
     ∧ state (self (after (select fuel f v) w)) !! g = Some FNull).
Proof.
  intros Hne. unfold after. rewrite select_run.
  destruct (resetDependentFields_safe fuel f (updated w (<[f := v]> (state (self w))) []))
    as (o & st' & evs & -> & Ho & Hn).
  simpl in Hn.
  assert (H : st' !! g = state (self w) !! g
              ∨ (depends_on (dependencies (self w)) g f ∧ st' !! g = Some FNull)).
  { destruct (Hn g) as [Heq|?]; [left|by right]. by rewrite Heq, lookup_insert_ne. }
  destruct Ho as [->| ->]; simpl; exact H.
Qed.

Lemma X21_select_frame_witness :
  "category" ≠ "brand"
  ∧ (state (self (after (select 5 "brand" (FStr "Apple")) laptops)) !! "category"
     = state (self laptops) !! "category"
     ∨ (depends_on (dependencies (self laptops)) "category" "brand"
        ∧ state (self (after (select 5 "brand" (FStr "Apple")) laptops)) !! "category"
          = Some FNull)).
Proof.
  assert (H : "category" ≠ "brand") by discriminate.
  split; [exact H|].
  exact (X21_select_touches_dependents_only laptops 5 "brand" "category" (FStr "Apple") H).
Defined.



Lemma filter_sublist_impl {A} (P Q : A → Prop) `{!∀ x, Decision (P x)} `{!∀ x, Decision (Q x)}
    (l : list A) :
  (∀ x, P x → Q x) → sublist (filter P l) (filter Q l).
Proof.
  intros HPQ. induction l as [|x l IH]; [done|].
  rewrite !filter_cons. destruct (decide (P x)) as [HP|HP].
  - rewrite decide_True by (by apply HPQ). by constructor.
  - destruct (decide (Q x)); [by constructor | done].
Qed.

(** X23: selecting a value for an unset field that no declaration lists in
    its [dependsOn] narrows the filtered data: what is left is a sub-sequence
    of what was there. *)
Theorem X23_select_narrows_filtered_data (w : World) (fuel : nat) (f : string)
    (v : FieldValue) :
  (∀ dep, dep ∈ dependencies (self w) → f ∉ dependsOn dep) →
  unset (state (self w)) f →
  (∃ view, (select (S fuel) f v w).1 = Normal view)
  ∧ sublist (getFilteredData (self (after (select (S fuel) f v) w)))
            (getFilteredData (self w)).
Proof.
  intros Hleaf Hunset. unfold after.
  rewrite (select_without_dependents_run fuel f v w Hleaf). simpl.
  split; [by eexists|].
  rewrite !getFilteredData_filter_matches. simpl.
  apply filter_sublist_impl. intros item. rewrite !matches_spec. intros Hm g u Hg Hu.
  apply Hm; [|done]. rewrite lookup_insert_ne; [done|].
  intros <-. destruct Hunset as [Hno|Hno]; rewrite Hno in Hg; [done|]. by injection Hg as <-.
Qed.

Lemma X23_narrowing_witness :
  (∀ dep, dep ∈ dependencies (self laptops) → "name" ∉ dependsOn dep)
  ∧ unset (state (self laptops)) "name"
  ∧ sublist (getFilteredData (self (after (select 1 "name" (FStr "MacBook Air")) laptops)))
            (getFilteredData (self laptops)).
Proof.
  assert (H1 : ∀ dep, dep ∈ dependencies (self laptops) → "name" ∉ dependsOn dep).
  { apply Forall_forall. apply (bool_decide_unpack _). vm_compute. reflexivity. }
  assert (H2 : unset (state (self laptops)) "name") by (right; vm_compute; reflexivity).
  split; [exact H1|]. split; [exact H2|].
  exact (proj2 (X23_select_narrows_filtered_data laptops 0 "name" (FStr "MacBook Air") H1 H2)).
Defined.
